(** * A contact directory: field validation, upcoming birthdays, persistence

    Shallow embedding of [main.py], [src/assistant/address_book.py] and
    [src/assistant/birthday.py].

    Conventions of the embedding.
    - A Python [str] is a Rocq [string]; each [ascii] stands for one code
      point in U+0000..U+00FF, so the development covers the Latin-1 part
      of Python's text type.
    - Python integers are [Z]; [//] and [%] with a positive divisor are
      [Z.div] and [Z.modulo].
    - A raised exception is the [Raise] branch of [result]; code that
      mutates an object is a function from the old object to the outcome
      paired with the new object.
    - [datetime.date], [str.isdigit], [datetime.strptime] and [strftime]
      belong to the Python runtime; they are transcribed from the reference
      implementation (Lib/_pydatetime.py, Lib/_strptime.py) as far as the
      program uses them. Two inputs of the program come from outside and
      are parameters here: [today], the value of [datetime.now().date()],
      and [pads_year], the way the platform's C library prints a year
      below 1000.
    - [pickle] is an interface (class [Pickle]); the files are a finite
      map from paths to contents. *)

From Stdlib Require Import ZArith Lia String Ascii List Bool DecimalString.
From stdpp Require Import base option list strings gmap.

Local Open Scope string_scope.
Local Open Scope Z_scope.

(** ** Exceptions and outcomes *)

Inductive exn : Type :=
| ValueError (msg : string)
| KeyError
| IndexError
| OverflowError (msg : string)
| FileNotFoundError
| UnpicklingError.

Inductive result (A : Type) : Type :=
| Ok (a : A)
| Raise (e : exn).
Arguments Ok {A} a.
Arguments Raise {A} e.

Definition rbind {A B} (m : result A) (k : A -> result B) : result B :=
  match m with
  | Ok a => k a
  | Raise e => Raise e
  end.

Notation "x <-r m ; k" := (rbind m (fun x => k))
  (at level 100, m at next level, right associativity, only parsing).

(** [str(n)] for an integer. *)
Definition str_int (n : Z) : string := NilZero.string_of_int (Z.to_int n).

(** ** The runtime's calendar: [datetime.date] *)

Module datetime.

Record date : Type := mkdate { year : Z; month : Z; day : Z }.

Definition MINYEAR : Z := 1.
Definition MAXYEAR : Z := 9999.
Definition _MAXORDINAL : Z := 3652059.

Definition _DAYS_IN_MONTH (m : Z) : Z :=
  match m with
  | 1 => 31 | 2 => 28 | 3 => 31 | 4 => 30 | 5 => 31 | 6 => 30
  | 7 => 31 | 8 => 31 | 9 => 30 | 10 => 31 | 11 => 30 | 12 => 31
  | _ => -1
  end.

Definition _DAYS_BEFORE_MONTH (m : Z) : Z :=
  match m with
  | 1 => 0 | 2 => 31 | 3 => 59 | 4 => 90 | 5 => 120 | 6 => 151
  | 7 => 181 | 8 => 212 | 9 => 243 | 10 => 273 | 11 => 304 | 12 => 334
  | _ => -1
  end.

Definition _is_leap (y : Z) : bool :=
  (y mod 4 =? 0) && (negb (y mod 100 =? 0) || (y mod 400 =? 0)).

Definition _days_before_year (y : Z) : Z :=
  let y' := y - 1 in
  y' * 365 + y' / 4 - y' / 100 + y' / 400.

Definition _days_in_month (y m : Z) : Z :=
  if (m =? 2) && _is_leap y then 29 else _DAYS_IN_MONTH m.

Definition _days_before_month (y m : Z) : Z :=
  _DAYS_BEFORE_MONTH m + (if (2 <? m) && _is_leap y then 1 else 0).

Definition _ymd2ord (y m d : Z) : Z :=
  _days_before_year y + _days_before_month y m + d.

Definition _DI400Y : Z := 146097.
Definition _DI100Y : Z := 36524.
Definition _DI4Y : Z := 1461.

Definition _ord2ymd (n : Z) : Z * Z * Z :=
  let n := n - 1 in
  let n400 := n / _DI400Y in
  let n := n mod _DI400Y in
  let y := n400 * 400 + 1 in
  let n100 := n / _DI100Y in
  let n := n mod _DI100Y in
  let n4 := n / _DI4Y in
  let n := n mod _DI4Y in
  let n1 := n / 365 in
  let n := n mod 365 in
  let y := y + n100 * 100 + n4 * 4 + n1 in
  if (n1 =? 4) || (n100 =? 4) then (y - 1, 12, 31)
  else
    let leapyear := (n1 =? 3) && (negb (n4 =? 24) || (n100 =? 3)) in
    let m := Z.shiftr (n + 50) 5 in
    let preceding :=
      _DAYS_BEFORE_MONTH m + (if (2 <? m) && leapyear then 1 else 0) in
    if n <? preceding then
      let m := m - 1 in
      let preceding :=
        preceding
        - (_DAYS_IN_MONTH m + (if (m =? 2) && leapyear then 1 else 0)) in
      (y, m, n - preceding + 1)
    else (y, m, n - preceding + 1).

(** [date(year, month, day)]: the constructor checks its fields. *)
Definition _check_date_fields (y m d : Z) : result unit :=
  if negb ((MINYEAR <=? y) && (y <=? MAXYEAR)) then
    Raise (ValueError ("year " +:+ str_int y +:+ " is out of range"))
  else if negb ((1 <=? m) && (m <=? 12)) then
    Raise (ValueError "month must be in 1..12")
  else if negb ((1 <=? d) && (d <=? _days_in_month y m)) then
    Raise (ValueError "day is out of range for month")
  else Ok tt.

Definition new (y m d : Z) : result date :=
  _ <-r _check_date_fields y m d; Ok (mkdate y m d).

Definition valid (x : date) : Prop :=
  1 <= year x <= 9999 /\ 1 <= month x <= 12
  /\ 1 <= day x <= _days_in_month (year x) (month x).

Definition toordinal (x : date) : Z := _ymd2ord (year x) (month x) (day x).

Definition fromordinal (n : Z) : date :=
  let '(y, m, d) := _ord2ymd n in mkdate y m d.

(** [x.replace(year=y)] builds a new date and so checks it again. *)
Definition replace_year (x : date) (y : Z) : result date :=
  new y (month x) (day x).

(** [x + timedelta(days=k)] *)
Definition add_days (x : date) (k : Z) : result date :=
  let o := toordinal x + k in
  if (0 <? o) && (o <=? _MAXORDINAL) then Ok (fromordinal o)
  else Raise (OverflowError "date value out of range").

(** [x.weekday()]: Monday is 0, Sunday is 6. *)
Definition weekday (x : date) : Z := (toordinal x + 6) mod 7.

(** Comparison is that of the triples (year, month, day). *)
Definition _cmp (x y : date) : comparison :=
  match year x ?= year y with
  | Eq => match month x ?= month y with
          | Eq => day x ?= day y
          | c => c
          end
  | c => c
  end.

Definition ltb (x y : date) : bool :=
  match _cmp x y with Lt => true | _ => false end.
Definition leb (x y : date) : bool :=
  match _cmp x y with Gt => false | _ => true end.

End datetime.

Abbreviation date := datetime.date.

(** ** Text: the runtime's string operations the program relies on *)

Definition ord (c : ascii) : Z := Z.of_N (N_of_ascii c).
Arguments ord : simpl never.
Definition len (s : string) : Z := Z.of_nat (String.length s).
Definition chars (s : string) : list ascii := list_ascii_of_string s.

(** [\d] in a text pattern: a character of category Nd. Below U+0100
    these are the ten digits 0..9. *)
Definition is_decimal (c : ascii) : bool := (48 <=? ord c) && (ord c <=? 57).

(** One character of [str.isdigit]: Numeric_Type Decimal or Digit. Below
    U+0100 these are 0..9 and the superscripts U+00B2, U+00B3, U+00B9. *)
Definition is_digit (c : ascii) : bool :=
  is_decimal c || (ord c =? 178) || (ord c =? 179) || (ord c =? 185).

(** [s.isdigit()]: at least one character and all of them digits. *)
Definition isdigit (s : string) : bool :=
  negb (len s =? 0) && forallb is_digit (chars s).

(** [int(text)] on the text of a matched group: a leading blank is
    skipped, then the decimal digits are accumulated. *)
Definition digit_value (c : ascii) : Z := ord c - 48.

Definition int_digits (cs : list ascii) : Z :=
  fold_left (fun acc c => acc * 10 + digit_value c) cs 0.

Definition int (s : string) : Z :=
  match s with
  | String a rest =>
      if ord a =? 32 then int_digits (chars rest) else int_digits (chars s)
  | EmptyString => 0
  end.

(** [s.zfill(width)] for an unsigned numeral. *)
Definition zfill (width : nat) (s : string) : string :=
  string_of_list_ascii (repeat "0"%char (width - String.length s)) +:+ s.

(** ** The regular expressions of [_strptime]

    [re.match] tries alternatives left to right and backtracks; the list
    of (matched text, remaining text) pairs is in that order. *)

Inductive regex : Type :=
| Lit (c : ascii)
| Range (lo hi : ascii)
| Digit
| Cat (r1 r2 : regex)
| Alt (r1 r2 : regex).

Definition one_char (p : ascii -> bool) (s : string) : list (string * string) :=
  match s with
  | String a rest => if p a then [(String a "", rest)] else []
  | EmptyString => []
  end.

Fixpoint re_match (r : regex) (s : string) : list (string * string) :=
  match r with
  | Lit c => one_char (fun a => Ascii.eqb a c) s
  | Range lo hi => one_char (fun a => (ord lo <=? ord a) && (ord a <=? ord hi)) s
  | Digit => one_char is_decimal s
  | Cat r1 r2 =>
      p1 ← re_match r1 s;
      p2 ← re_match r2 p1.2;
      [(p1.1 +:+ p2.1, p2.2)]
  | Alt r1 r2 => re_match r1 s ++ re_match r2 s
  end.

(** [%d]: 3[0-1]|[1-2]\d|0[1-9]|[1-9]| [1-9] *)
Definition re_d : regex :=
  Alt (Cat (Lit "3") (Range "0" "1"))
 (Alt (Cat (Range "1" "2") Digit)
 (Alt (Cat (Lit "0") (Range "1" "9"))
 (Alt (Range "1" "9")
      (Cat (Lit " ") (Range "1" "9"))))).

(** [%m]: 1[0-2]|0[1-9]|[1-9] *)
Definition re_m : regex :=
  Alt (Cat (Lit "1") (Range "0" "2"))
 (Alt (Cat (Lit "0") (Range "1" "9"))
      (Range "1" "9")).

(** [%Y]: \d\d\d\d *)
Definition re_Y : regex := Cat Digit (Cat Digit (Cat Digit Digit)).

(** The groups of the first match of the pattern for ["%d.%m.%Y"], with
    the text left over after it. *)
Definition found_dmY (data_string : string)
  : list (string * string * string * string) :=
  d ← re_match re_d data_string;
  dot1 ← re_match (Lit ".") d.2;
  m ← re_match re_m dot1.2;
  dot2 ← re_match (Lit ".") m.2;
  Y ← re_match re_Y dot2.2;
  [(d.1, m.1, Y.1, Y.2)].

(** [datetime.strptime(data_string, "%d.%m.%Y").date()]. The texts of the
    two parse errors are shortened: the caller replaces them. *)
Definition strptime_dmY (data_string : string) : result date :=
  match found_dmY data_string with
  | [] => Raise (ValueError "time data does not match format")
  | (d, m, Y, rest) :: _ =>
      if negb (len rest =? 0) then Raise (ValueError "unconverted data remains")
      else datetime.new (int Y) (int m) (int d)
  end.

(** [strftime]. The C library prints [%m] and [%d] with two digits. For
    [%Y] platforms differ on years below 1000: some print four digits,
    glibc prints the bare number; [pads_year] says which one runs. *)
Definition fmt_02d (n : Z) : string := zfill 2 (str_int n).

Definition fmt_Y (pads_year : bool) (y : Z) : string :=
  if pads_year then zfill 4 (str_int y) else str_int y.

(** [x.strftime("%d.%m.%Y")] *)
Definition strftime_dmY (pads_year : bool) (x : date) : string :=
  fmt_02d (datetime.day x) +:+ "." +:+ fmt_02d (datetime.month x) +:+ "."
  +:+ fmt_Y pads_year (datetime.year x).

(** [x.strftime("%Y-%m-%d")] *)
Definition strftime_Ymd (pads_year : bool) (x : date) : string :=
  fmt_Y pads_year (datetime.year x) +:+ "-" +:+ fmt_02d (datetime.month x)
  +:+ "-" +:+ fmt_02d (datetime.day x).

(** ** Fields (main.py, classes Field, Name, Phone, Birthday; Address from
    assistant/address_book.py) *)

Module Name.
Record t : Type := mk { value : string }.

Definition new (value : string) : result t :=
  if len value =? 0 then Raise (ValueError "Invalid name.")
  else Ok (mk value).
End Name.

Module Phone.
Record t : Type := mk { value : string }.

Definition _validate (value : string) : bool :=
  isdigit value && (len value =? 10).

Definition new (value : string) : result t :=
  if negb (_validate value) then
    Raise (ValueError "Phone number must contain exactly 10 digits.")
  else Ok (mk value).

Definition phone_number (self : t) : string := value self.

Definition update_number (new_number : string) (self : t) : result unit * t :=
  if negb (_validate new_number) then
    (Raise (ValueError "Phone number must contain exactly 10 digits."), self)
  else (Ok tt, mk new_number).
End Phone.

Module Birthday.
Record t : Type := mk { value : date }.

Definition new (value : string) : result t :=
  match strptime_dmY value with
  | Ok dt => Ok (mk dt)
  | Raise (ValueError _) =>
      Raise (ValueError "Invalid date format. Use DD.MM.YYYY")
  | Raise e => Raise e
  end.

Definition date_str (pads_year : bool) (self : t) : string :=
  strftime_dmY pads_year (value self).
End Birthday.

Module Address.
Record t : Type := mk { value : string }.

Definition new (value : string) : t := mk value.
End Address.

(** ** Record (main.py, class Record)

    [addresses] is the attribute that assistant/address_book.py attaches
    to a Record on first use: [None] while the attribute does not exist,
    [Some l] once it holds the list [l]. A method that mutates [self]
    returns its outcome together with the Record after the call. *)

Module Record.
Record t : Type := mk {
  name : Name.t;
  phones : list Phone.t;
  birthday : option Birthday.t;
  addresses : option (list Address.t)
}.

Definition new (name : string) : result t :=
  n <-r Name.new name; Ok (mk n [] None None).

Definition with_phones (self : t) (ps : list Phone.t) : t :=
  mk (name self) ps (birthday self) (addresses self).
Definition with_birthday (self : t) (b : option Birthday.t) : t :=
  mk (name self) (phones self) b (addresses self).
Definition with_addresses (self : t) (a : option (list Address.t)) : t :=
  mk (name self) (phones self) (birthday self) a.

Definition add_phone (phone_number : string) (self : t) : result unit * t :=
  match Phone.new phone_number with
  | Ok p => (Ok tt, with_phones self (phones self ++ [p]))
  | Raise e => (Raise e, self)
  end.

(** Position of the first phone with this number. *)
Fixpoint find_phone (phone_number : string) (ps : list Phone.t) : option nat :=
  match ps with
  | [] => None
  | ph :: rest =>
      if String.eqb (Phone.phone_number ph) phone_number then Some 0%nat
      else S <$> find_phone phone_number rest
  end.

Definition remove_phone (phone_number : string) (self : t) : result unit * t :=
  match find_phone phone_number (phones self) with
  | Some i => (Ok tt, with_phones self (delete i (phones self)))
  | None => (Ok tt, self)
  end.

Definition edit_phone (old_number new_number : string) (self : t)
  : result bool * t :=
  match find_phone old_number (phones self) with
  | Some i =>
      match phones self !! i with
      | Some ph =>
          match Phone.update_number new_number ph with
          | (Ok _, ph') => (Ok true, with_phones self (<[i := ph']> (phones self)))
          | (Raise e, _) => (Raise e, self)
          end
      | None => (Ok false, self)
      end
  | None => (Ok false, self)
  end.

Definition add_birthday (birthday_str : string) (self : t) : result unit * t :=
  match birthday self with
  | Some _ => (Raise (ValueError "Birthday already set."), self)
  | None =>
      match Birthday.new birthday_str with
      | Ok b => (Ok tt, with_birthday self (Some b))
      | Raise e => (Raise e, self)
      end
  end.
End Record.

(** ** AddressBook (main.py, class AddressBook)

    The [data] dictionary keeps insertion order, which decides the order
    of the report, so it is a list of entries with distinct keys. *)

Module AddressBook.
Definition t : Type := list (string * Record.t).

Definition empty : t := [].

(** [data[k] = v]: a present key keeps its place, a new one goes last. *)
Fixpoint _setitem (k : string) (v : Record.t) (data : t) : t :=
  match data with
  | [] => [(k, v)]
  | (k', v') :: rest =>
      if String.eqb k' k then (k', v) :: rest
      else (k', v') :: _setitem k v rest
  end.

(** [data.get(k)] *)
Fixpoint get (k : string) (data : t) : option Record.t :=
  match data with
  | [] => None
  | (k', v') :: rest => if String.eqb k' k then Some v' else get k rest
  end.

(** [del data[k]] *)
Fixpoint _delitem (k : string) (data : t) : t :=
  match data with
  | [] => []
  | (k', v') :: rest =>
      if String.eqb k' k then rest else (k', v') :: _delitem k rest
  end.

Definition values (self : t) : list Record.t := self.*2.
Definition keys (self : t) : list string := self.*1.

Definition add_record (record : Record.t) (self : t) : t :=
  _setitem (Name.value (Record.name record)) record self.

Definition find (name : string) (self : t) : option Record.t := get name self.

Definition delete (name : string) (self : t) : t :=
  match get name self with
  | Some _ => _delitem name self
  | None => self
  end.

(** The birthday of one Record moved onto this year, or onto the next
    one when it has passed (first two statements of the loop body). *)
Definition candidate (today : date) (b : Birthday.t) : result date :=
  bday_this_year <-r
    datetime.replace_year (Birthday.value b) (datetime.year today);
  if datetime.ltb bday_this_year today then
    datetime.replace_year bday_this_year (datetime.year today + 1)
  else Ok bday_this_year.

(** The weekend shift of a date inside the window. *)
Definition congratulation_date (bday_this_year : date) : result date :=
  if 5 <=? datetime.weekday bday_this_year then
    datetime.add_days bday_this_year (7 - datetime.weekday bday_this_year)
  else Ok bday_this_year.

(** One turn of the loop: the line appended for [rec], if any. *)
Definition greeting (pads_year : bool) (today next_week : date)
    (rec : Record.t) : result (option string) :=
  match Record.birthday rec with
  | Some b =>
      bday_this_year <-r candidate today b;
      if datetime.leb today bday_this_year
         && datetime.leb bday_this_year next_week then
        congr_date <-r congratulation_date bday_this_year;
        Ok (Some (strftime_Ymd pads_year congr_date +:+ ": "
                  +:+ Name.value (Record.name rec)))
      else Ok None
  | None => Ok None
  end.

Fixpoint _greetings_loop (pads_year : bool) (today next_week : date)
    (recs : list Record.t) (greetings : list string) : result (list string) :=
  match recs with
  | [] => Ok greetings
  | rec :: rest =>
      line <-r greeting pads_year today next_week rec;
      _greetings_loop pads_year today next_week rest
        (match line with
         | Some l => greetings ++ [l]
         | None => greetings
         end)
  end.

(** [today] stands for [datetime.now().date()]. *)
Definition get_upcoming_birthdays (pads_year : bool) (today : date)
    (self : t) : result (list string) :=
  next_week <-r datetime.add_days today 7;
  _greetings_loop pads_year today next_week (values self) [].
End AddressBook.

(** ** Command handlers

    A handler receives [args] and the book, may change the book and
    either returns or raises. A Record obtained from [book.find(name)]
    is the object stored under [name]: a method call on it changes the
    entry of the book in place. *)

Definition M (A : Type) : Type := AddressBook.t -> result A * AddressBook.t.

Definition ret {A} (a : A) : M A := fun book => (Ok a, book).
Definition raise {A} (e : exn) : M A := fun book => (Raise e, book).
Definition lift {A} (r : result A) : M A := fun book => (r, book).
Definition gets {A} (f : AddressBook.t -> A) : M A := fun book => (Ok (f book), book).
Definition modify (f : AddressBook.t -> AddressBook.t) : M unit :=
  fun book => (Ok tt, f book).

Definition bind {A B} (m : M A) (k : A -> M B) : M B :=
  fun book =>
    match m book with
    | (Ok a, book') => k a book'
    | (Raise e, book') => (Raise e, book')
    end.

Notation "x <-m m ; k" := (bind m (fun x => k))
  (at level 100, m at next level, right associativity, only parsing).

(** A method call on the Record stored under [name]. The handlers only
    call it after [find] returned that Record. *)
Definition on_record {A} (name : string) (method : Record.t -> result A * Record.t)
  : M A :=
  fun book =>
    match AddressBook.find name book with
    | Some record =>
        let (outcome, record') := method record in
        (outcome, AddressBook._setitem name record' book)
    | None => (Raise KeyError, book)
    end.

(** [a, b, *_ = args] *)
Definition unpack2 (args : list string) : result (string * string) :=
  match args with
  | a :: b :: _ => Ok (a, b)
  | _ => Raise (ValueError
           ("not enough values to unpack (expected at least 2, got "
            +:+ str_int (Z.of_nat (length args)) +:+ ")"))
  end.

(** [a, b, c, *_ = args] *)
Definition unpack3 (args : list string) : result (string * string * string) :=
  match args with
  | a :: b :: c :: _ => Ok (a, b, c)
  | _ => Raise (ValueError
           ("not enough values to unpack (expected at least 3, got "
            +:+ str_int (Z.of_nat (length args)) +:+ ")"))
  end.

(** [args[0]] *)
Definition first_arg (args : list string) : result string :=
  match args with
  | a :: _ => Ok a
  | [] => Raise IndexError
  end.

(** The decorator [input_error] (main.py). *)
Definition input_error (func : list string -> M string) : list string -> M string :=
  fun args book =>
    match func args book with
    | (Raise KeyError, book') => (Ok "Contact not found.", book')
    | (Raise (ValueError e), book') => (Ok e, book')
    | (Raise IndexError, book') =>
        (Ok "Enter the command followed by necessary arguments.", book')
    | other => other
    end.

Definition add_contact : list string -> M string :=
  input_error (fun args =>
    np <-m lift (unpack2 args);
    let '(name, phone) := np in
    record <-m gets (AddressBook.find name);
    message <-m
      match record with
      | None =>
          record <-m lift (Record.new name);
          _ <-m modify (AddressBook.add_record record);
          ret "Contact added."
      | Some _ => ret "Contact updated."
      end;
    _ <-m (if negb (len phone =? 0) then on_record name (Record.add_phone phone)
           else ret tt);
    ret message).

Definition change_contact : list string -> M string :=
  input_error (fun args =>
    a <-m lift (unpack3 args);
    let '(name, old_phone, new_phone) := a in
    record <-m gets (AddressBook.find name);
    match record with
    | None => raise KeyError
    | Some _ =>
        changed <-m on_record name (Record.edit_phone old_phone new_phone);
        if (changed : bool) then ret "Phone updated." else ret "Old phone not found."
    end).

Definition add_birthday : list string -> M string :=
  input_error (fun args =>
    a <-m lift (unpack2 args);
    let '(name, bday_str) := a in
    record <-m gets (AddressBook.find name);
    match record with
    | None => raise KeyError
    | Some _ =>
        _ <-m on_record name (Record.add_birthday bday_str);
        ret "Birthday added."
    end).

Definition show_birthday (pads_year : bool) : list string -> M string :=
  input_error (fun args =>
    name <-m lift (first_arg args);
    record <-m gets (AddressBook.find name);
    match record with
    | None => raise KeyError
    | Some record =>
        match Record.birthday record with
        | Some b => ret (Birthday.date_str pads_year b)
        | None => ret "Birthday not set."
        end
    end).

(** [birthdays] is not decorated: what the query raises, it raises. *)
Definition birthdays (pads_year : bool) (today : date) (book : AddressBook.t)
  : result string :=
  upcoming <-r AddressBook.get_upcoming_birthdays pads_year today book;
  match upcoming with
  | [] => Ok "No birthdays in the next 7 days."
  | _ => Ok (String.concat (String (ascii_of_nat 10) "") upcoming)
  end.

(** *** Address handlers (assistant/address_book.py)

    The module imports [Record], [Field], [AddressBook] and [input_error]
    from assistant.models and assistant.handlers; these are the
    definitions of main.py above. *)

Definition add_address : list string -> M string :=
  input_error (fun args =>
    a <-m lift (unpack2 args);
    let '(name, address_str) := a in
    record <-m gets (AddressBook.find name);
    match record with
    | None => raise KeyError
    | Some _ =>
        _ <-m on_record name (fun r =>
          let existing :=
            match Record.addresses r with
            | Some l => l
            | None => []
            end in
          (Ok tt, Record.with_addresses r (Some ((existing ++ [Address.new address_str])%list))));
        ret "Address added."
    end).

(** The loop of [change_address]: the first address equal to
    [old_address] gets the new value. *)
Fixpoint replace_first (old_address new_address : string) (l : list Address.t)
  : option (list Address.t) :=
  match l with
  | [] => None
  | addr :: rest =>
      if String.eqb (Address.value addr) old_address then
        Some (Address.mk new_address :: rest)
      else (cons addr) <$> replace_first old_address new_address rest
  end.

Definition change_address : list string -> M string :=
  input_error (fun args =>
    a <-m lift (unpack3 args);
    let '(name, old_address, new_address) := a in
    record <-m gets (AddressBook.find name);
    match record with
    | None => raise KeyError
    | Some r =>
        match Record.addresses r with
        | None => raise KeyError
        | Some l =>
            match replace_first old_address new_address l with
            | Some l' =>
                _ <-m on_record name (fun r => (Ok tt, Record.with_addresses r (Some l')));
                ret "Address updated."
            | None => ret "Old address not found."
            end
        end
    end).

Definition show_address : list string -> M string :=
  input_error (fun args =>
    name <-m lift (first_arg args);
    record <-m gets (AddressBook.find name);
    match record with
    | None => raise KeyError
    | Some r =>
        match Record.addresses r with
        | None => raise KeyError
        | Some l =>
            let joined := String.concat "; " (Address.value <$> l) in
            if len joined =? 0 then ret "No addresses." else ret joined
        end
    end).

Definition remove_address : list string -> M string :=
  input_error (fun args =>
    a <-m lift (unpack2 args);
    let '(name, address_str) := a in
    record <-m gets (AddressBook.find name);
    match record with
    | None => raise KeyError
    | Some r =>
        match Record.addresses r with
        | None => raise KeyError
        | Some l =>
            _ <-m on_record name (fun r =>
              (Ok tt,
               Record.with_addresses r
                 (Some (filter (fun addr => Address.value addr <> address_str) l))));
            ret "Address removed."
        end
    end).

(** ** Persistence (main.py, save_data and load_data)

    [pickle] is the runtime's serializer; the program relies on it as an
    interface: [dump] turns the book into the content of a file, [load]
    reads such a content back or raises. *)

Class Pickle : Type := {
  file_content : Type;
  pickle_dump : AddressBook.t -> file_content;
  pickle_load : file_content -> result AddressBook.t
}.

(** What pickle promises: loading what was dumped rebuilds the object
    graph, attribute by attribute. *)
Class PickleFaithful (P : Pickle) : Prop :=
  pickle_load_dump : forall book, pickle_load (pickle_dump book) = Ok book.

(** The files, by path. *)
Abbreviation filesystem := (gmap string file_content).

Section Persistence.
Context {P : Pickle}.

(** [open(filename, "wb")] creates or truncates the file; the dump is
    all it holds afterwards. *)
Definition save_data (book : AddressBook.t) (filename : string)
    (fs : filesystem) : filesystem :=
  <[filename := pickle_dump book]> fs.

(** [open(filename, "rb")] *)
Definition open_rb (filename : string) (fs : filesystem) : result file_content :=
  match fs !! filename with
  | Some content => Ok content
  | None => Raise FileNotFoundError
  end.

Definition load_data (filename : string) (fs : filesystem) : result AddressBook.t :=
  match (f <-r open_rb filename fs; pickle_load f) with
  | Raise FileNotFoundError => Ok AddressBook.empty
  | other => other
  end.
End Persistence.

(** ** Rendering (main.py: Record.__str__, show_phone, show_all) *)

(** [text or default]: an empty text is false. *)
Definition or_text (text default : string) : string :=
  if len text =? 0 then default else text.

Definition newline : string := String (ascii_of_nat 10) "".

(** [Record.__str__] *)
Definition Record_str (pads_year : bool) (self : Record.t) : string :=
  let phones_str :=
    or_text (String.concat "; " (Phone.phone_number <$> Record.phones self))
            "No phones" in
  let bday :=
    match Record.birthday self with
    | Some b => Birthday.date_str pads_year b
    | None => "N/A"
    end in
  "Contact name: " +:+ Name.value (Record.name self) +:+ ", phones: "
  +:+ phones_str +:+ ", birthday: " +:+ bday.

Definition show_phone : list string -> M string :=
  input_error (fun args =>
    name <-m lift (first_arg args);
    record <-m gets (AddressBook.find name);
    match record with
    | None => raise KeyError
    | Some record =>
        ret (or_text (String.concat "; " (Phone.phone_number <$> Record.phones record))
                     "No phones.")
    end).

Definition show_all (pads_year : bool) (book : AddressBook.t) : string :=
  match book with
  | [] => "No contacts."
  | _ => String.concat newline (Record_str pads_year <$> AddressBook.values book)
  end.

(** ** Reading a command line (main.py, parse_input) *)

(** [str.isspace] below U+0100: the characters [strip] removes and
    [split] separates at. *)
Definition is_space (c : ascii) : bool :=
  ((9 <=? ord c) && (ord c <=? 13)) || ((28 <=? ord c) && (ord c <=? 32))
  || (ord c =? 133) || (ord c =? 160).

Fixpoint drop_spaces (cs : list ascii) : list ascii :=
  match cs with
  | c :: rest => if is_space c then drop_spaces rest else cs
  | [] => []
  end.

(** [s.strip()] *)
Definition strip (s : string) : string :=
  string_of_list_ascii (rev (drop_spaces (rev (drop_spaces (chars s))))).

(** [s.split()]: the maximal runs of characters that are no spaces;
    [word] is the run being read. *)
Fixpoint split_words (cs word : list ascii) : list string :=
  match cs with
  | [] =>
      match word with
      | [] => []
      | _ => [string_of_list_ascii word]
      end
  | c :: rest =>
      if is_space c then
        match word with
        | [] => split_words rest []
        | _ => string_of_list_ascii word :: split_words rest []
        end
      else split_words rest (word ++ [c])
  end.

Definition split (s : string) : list string := split_words (chars s) [].

(** [s.lower()] below U+0100: the letters A..Z and the accented capitals
    U+00C0..U+00DE, the multiplication sign apart, move up by 32. *)
Definition lower_char (c : ascii) : ascii :=
  if ((65 <=? ord c) && (ord c <=? 90))
     || ((192 <=? ord c) && (ord c <=? 222) && negb (ord c =? 215))
  then ascii_of_N (Z.to_N (ord c + 32))
  else c.

Definition lower (s : string) : string :=
  string_of_list_ascii (lower_char <$> chars s).

Definition parse_input (user_input : string) : string * list string :=
  match split (strip user_input) with
  | [] => ("", [])
  | cmd :: args => (lower cmd, args)
  end.

(** ** The command loop (main.py, main)

    The console is the list of lines still to be typed, each with the
    date of the day it is handled on; [input] writes its prompt and, when
    no line is left, raises EOFError, which [main] does not catch. What
    is written is recorded as events. *)

Inductive event : Type :=
| Prompt (text : string)
| Print (text : string).

Inductive ending : Type :=
| Finished
| Uncaught (e : exn)
| EndOfInput.

Section Main.
Context {P : Pickle}.
Variable pads_year : bool.

(** The branches of the loop other than close and exit: what is
    printed. *)
Definition dispatch (today : date) (command : string) (args : list string)
  : M string :=
  if String.eqb command "hello" then ret "How can I help you?"
  else if String.eqb command "add" then add_contact args
  else if String.eqb command "change" then change_contact args
  else if String.eqb command "phone" then show_phone args
  else if String.eqb command "all" then gets (show_all pads_year)
  else if String.eqb command "add-birthday" then add_birthday args
  else if String.eqb command "show-birthday" then show_birthday pads_year args
  else if String.eqb command "birthdays" then
    fun book => (birthdays pads_year today book, book)
  else ret "Invalid command.".

Fixpoint main_loop (inputs : list (date * string)) (book : AddressBook.t)
    (fs : filesystem) : list event * ending * filesystem :=
  match inputs with
  | [] => ([Prompt "Enter a command: "], EndOfInput, fs)
  | (today, user_input) :: rest =>
      let '(command, args) := parse_input user_input in
      if String.eqb command "close" || String.eqb command "exit" then
        ([Prompt "Enter a command: "; Print "Data saved. Good bye!"],
         Finished,
         save_data book "addressbook.pkl" fs)
      else
        match dispatch today command args book with
        | (Ok text, book') =>
            let '(events, e, fs') := main_loop rest book' fs in
            (Prompt "Enter a command: " :: Print text :: events, e, fs')
        | (Raise e, _) => ([Prompt "Enter a command: "], Uncaught e, fs)
        end
  end.

Definition main (inputs : list (date * string)) (fs : filesystem)
  : list event * ending * filesystem :=
  match load_data "addressbook.pkl" fs with
  | Ok book =>
      let '(events, e, fs') := main_loop inputs book fs in
      (Print "Welcome to the assistant bot!" :: events, e, fs')
  | Raise e => ([], Uncaught e, fs)
  end.
End Main.

(** ** The seed script (assistant/birthday.py, create_birthdays)

    As for the address handlers, the names it imports from
    assistant.models are the definitions of main.py. *)

Definition seed_birthdays : list (string * string) :=
  [("John Smith", "01.01.1990");
   ("Emma Brown", "12.12.1985");
   ("Liam Johnson", "25.03.2000")].

(** One turn of the loop over the seed list. *)
Definition create_birthday (name bday_str : string) : M unit :=
  found <-m gets (AddressBook.find name);
  record <-m
    match found with
    | None =>
        record <-m lift (Record.new name);
        _ <-m modify (AddressBook.add_record record);
        ret record
    | Some record => ret record
    end;
  match Record.birthday record with
  | None => on_record name (Record.add_birthday bday_str)
  | Some _ => ret tt
  end.

Fixpoint create_birthdays_loop (birthdays : list (string * string)) : M unit :=
  match birthdays with
  | [] => ret tt
  | (name, bday_str) :: rest =>
      _ <-m create_birthday name bday_str;
      create_birthdays_loop rest
  end.

Definition create_birthdays : M unit := create_birthdays_loop seed_birthdays.

(** ** Notions used to state the properties *)

(** The report as the specification words it (steps 3 to 5): a candidate
    is kept when it lies at most seven days ahead; a Saturday moves two
    days and a Sunday one day forward; the line is the moved date and the
    name. *)
Definition weekend_shift (c : date) : Z :=
  if datetime.weekday c =? 5 then 2
  else if datetime.weekday c =? 6 then 1
  else 0.

Definition shifted (c : date) : date :=
  datetime.fromordinal (datetime.toordinal c + weekend_shift c).

Definition in_window (today c : date) : bool :=
  (datetime.toordinal today <=? datetime.toordinal c)
  && (datetime.toordinal c <=? datetime.toordinal today + 7).

Definition spec_greeting (pads_year : bool) (today : date) (rec : Record.t)
  : option string :=
  match Record.birthday rec with
  | Some b =>
      match AddressBook.candidate today b with
      | Ok c =>
          if in_window today c then
            Some (strftime_Ymd pads_year (shifted c) +:+ ": "
                  +:+ Name.value (Record.name rec))
          else None
      | Raise _ => None
      end
  | None => None
  end.

(** Decimal numerals of fixed width, digit by digit. *)
Definition digit_char (n : Z) : ascii := ascii_of_N (Z.to_N (48 + n)).

Definition dec2 (n : Z) : string :=
  String (digit_char (n / 10)) (String (digit_char (n mod 10)) "").

Definition dec4 (n : Z) : string :=
  String (digit_char (n / 1000))
    (String (digit_char (n / 100 mod 10))
       (String (digit_char (n / 10 mod 10))
          (String (digit_char (n mod 10)) ""))).

(** The shapes of the three parts of a date text: a day of one or two
    digits, or of a blank and a digit; a month of one or two digits; a
    year of four digits. *)
Definition day_text (ds : string) : bool :=
  match chars ds with
  | [a] => is_decimal a
  | [a; b] => (is_decimal a || (ord a =? 32)) && is_decimal b
  | _ => false
  end.

Definition month_text (ms : string) : bool :=
  match chars ms with
  | [a] => is_decimal a
  | [a; b] => is_decimal a && is_decimal b
  | _ => false
  end.

Definition year_text (ys : string) : bool :=
  match chars ys with
  | [a; b; c; d] => is_decimal a && is_decimal b && is_decimal c && is_decimal d
  | _ => false
  end.

(** Two digits, as zero-padding writes a day or a month. *)
Definition two_digits (t : string) : bool :=
  match chars t with
  | [a; b] => is_decimal a && is_decimal b
  | _ => false
  end.

(** The texts a regular expression matches as a whole. *)
Inductive matches : regex -> string -> Prop :=
| matches_lit c : matches (Lit c) (String c "")
| matches_range lo hi a :
    ord lo <= ord a <= ord hi -> matches (Range lo hi) (String a "")
| matches_digit a : is_decimal a = true -> matches Digit (String a "")
| matches_cat r1 r2 t1 t2 :
    matches r1 t1 -> matches r2 t2 -> matches (Cat r1 r2) (t1 +:+ t2)
| matches_alt_l r1 r2 t : matches r1 t -> matches (Alt r1 r2) t
| matches_alt_r r1 r2 t : matches r2 t -> matches (Alt r1 r2) t.

(** *** Auxiliary functions of the calendar proofs *)

(** The extra day of a leap year. *)
Definition leap_day (y : Z) : Z := if datetime._is_leap y then 1 else 0.

(** The tail of [_ord2ymd]: month and day from the day number inside a
    year, counted from 0. *)
Definition month_day (n : Z) (leapyear : bool) : Z * Z :=
  let m := Z.shiftr (n + 50) 5 in
  let preceding :=
    datetime._DAYS_BEFORE_MONTH m + (if (2 <? m) && leapyear then 1 else 0) in
  if n <? preceding then
    (m - 1,
     n - (preceding
          - (datetime._DAYS_IN_MONTH (m - 1)
             + (if (m - 1 =? 2) && leapyear then 1 else 0)))
     + 1)
  else (m, n - preceding + 1).

Definition month_day_ok (leapyear : bool) (n : Z) : bool :=
  let '(m, d) := month_day n leapyear in
  (1 <=? m) && (m <=? 12) && (1 <=? d)
  && (d <=? (if (m =? 2) && leapyear then 29 else datetime._DAYS_IN_MONTH m))
  && (datetime._DAYS_BEFORE_MONTH m
      + (if (2 <? m) && leapyear then 1 else 0) + d =? n + 1).

(** A check of every integer from [lo] on, [fuel] of them. *)
Fixpoint forall_from (p : Z -> bool) (fuel : nat) (lo : Z) : bool :=
  match fuel with
  | O => true
  | S k => p lo && forall_from p k (lo + 1)
  end.

(** *** Sample data *)

(** A Monday, the day a week later, and a small book: Ann's birthday
    falls on the Saturday of that week, Bob's has passed, Dan's is seven
    and Eve's eight days ahead, Fay has none; Cyd was born on a leap day. *)
Definition sample_today : date := datetime.mkdate 2024 6 10.

Definition contact (name : string) (birthday : option date) : Record.t :=
  Record.mk (Name.mk name) [] (Birthday.mk <$> birthday) None.

Definition ann : Record.t := contact "Ann" (Some (datetime.mkdate 1990 6 15)).
Definition bob : Record.t := contact "Bob" (Some (datetime.mkdate 1985 1 1)).
Definition cyd : Record.t := contact "Cyd" (Some (datetime.mkdate 2000 2 29)).
Definition dan : Record.t := contact "Dan" (Some (datetime.mkdate 2001 6 17)).
Definition eve : Record.t := contact "Eve" (Some (datetime.mkdate 2001 6 18)).
Definition fay : Record.t := contact "Fay" None.

Definition sample_book : AddressBook.t :=
  [("Ann", ann); ("Bob", bob); ("Dan", dan); ("Eve", eve); ("Fay", fay)].

Definition leap_book : AddressBook.t := [("Ann", ann); ("Cyd", cyd)].


(** Ann once her address list exists and is empty. *)
Definition ann_no_addresses : Record.t :=
  Record.with_addresses ann (Some []).

(** A Record that holds one number twice. *)
Definition ida : Record.t :=
  Record.mk (Name.mk "Ida")
    [Phone.mk "0123456789"; Phone.mk "0987654321"; Phone.mk "0123456789"] None None.

(** A Record that holds one address twice. *)
Definition gus : Record.t :=
  Record.mk (Name.mk "Gus") [] None
    (Some [Address.mk "Kyiv"; Address.mk "Lviv"; Address.mk "Lviv"]).

(** A Record with one phone. *)
Definition hal : Record.t :=
  Record.mk (Name.mk "Hal") [Phone.mk "0123456789"] None None.

(** Ten times the superscript two, U+00B2. *)
Definition superscript_twos : string :=
  string_of_list_ascii (repeat (ascii_of_nat 178) 10).

(** A serializer that keeps the object graph as it is; it shows that the
    promise of [PickleFaithful] can be kept. *)
Definition memory_pickle : Pickle :=
  {| file_content := AddressBook.t;
     pickle_dump := fun book => book;
     pickle_load := fun content => Ok content |}.

(** February 29 of today's year exists and has not passed. *)
Definition feb29_ahead (today : date) : Prop :=
  datetime._is_leap (datetime.year today) = true
  /\ datetime.toordinal today
     <= datetime.toordinal (datetime.mkdate (datetime.year today) 2 29).

(** A text of blank characters only, and a word: a text that is not
    empty and holds no blank character. *)
Definition is_blank (s : string) : bool := forallb is_space (chars s).

Definition is_word (s : string) : bool :=
  negb (len s =? 0) && forallb (fun c => negb (is_space c)) (chars s).


(** *** Well-formed books

    What every Record that the commands build satisfies: it is stored
    under its own name, the name is not empty, each of its phones passes
    the Phone validation, and its Birthday, if any, is a calendar date.
    The keys of the dictionary are distinct. *)
Definition phones_valid (r : Record.t) : Prop :=
  Forall (fun ph => Phone._validate (Phone.value ph) = true) (Record.phones r).

Definition wf_record (key : string) (r : Record.t) : Prop :=
  Name.value (Record.name r) = key
  /\ key <> ""
  /\ phones_valid r
  /\ (forall b, Record.birthday r = Some b -> datetime.valid (Birthday.value b)).

Definition wf_book (book : AddressBook.t) : Prop :=
  NoDup (AddressBook.keys book)
  /\ Forall (fun entry => wf_record entry.1 entry.2) book.

(** The exceptions [input_error] turns into a message. *)
Definition catchable (e : exn) : Prop :=
  match e with
  | KeyError | ValueError _ | IndexError => True
  | _ => False
  end.

(** A Record with a Birthday stored under [name]. *)
Definition has_birthday (name : string) (book : AddressBook.t) : Prop :=
  exists r b, AddressBook.find name book = Some r /\ Record.birthday r = Some b.

(** A computation keeps the book well formed and its result, if any,
    satisfies [Q]. *)
Definition ensures {A} (m : M A) (Q : A -> Prop) : Prop :=
  forall book,
    wf_book book ->
    wf_book (m book).2 /\ forall a, (m book).1 = Ok a -> Q a.

(** A computation raises nothing but what [input_error] catches. *)
Definition raises_catchable {A} (m : M A) : Prop :=
  forall book e book', m book = (Raise e, book') -> catchable e.

(** * Properties *)

(** ** Calendar arithmetic *)

Ltac dlia := Z.div_mod_to_equations; lia.

Ltac enum_1_12 m :=
  let H := fresh "Hm" in
  assert (m = 1 \/ m = 2 \/ m = 3 \/ m = 4 \/ m = 5 \/ m = 6 \/ m = 7
          \/ m = 8 \/ m = 9 \/ m = 10 \/ m = 11 \/ m = 12) as H by lia;
  repeat (destruct H as [H | H]; [subst m | ]); [.. | subst m].

Section Calendar.
Import datetime.

Lemma is_leap_true y :
  _is_leap y = true <-> y mod 4 = 0 /\ (y mod 100 <> 0 \/ y mod 400 = 0).
Proof.
  unfold _is_leap.
  rewrite andb_true_iff, orb_true_iff, negb_true_iff, !Z.eqb_eq, Z.eqb_neq.
  tauto.
Qed.

Lemma is_leap_false y :
  _is_leap y = false <-> (y mod 4 <> 0 \/ (y mod 100 = 0 /\ y mod 400 <> 0)).
Proof.
  unfold _is_leap.
  rewrite andb_false_iff, orb_false_iff, negb_false_iff, !Z.eqb_eq, !Z.eqb_neq.
  tauto.
Qed.

Ltac case_leap y :=
  let E := fresh "Hleap" in
  destruct (_is_leap y) eqn:E;
  [ pose proof (proj1 (is_leap_true y) E)
  | pose proof (proj1 (is_leap_false y) E) ].

Lemma leap_day_range y : 0 <= leap_day y <= 1.
Proof. unfold leap_day. destruct (_is_leap y); lia. Qed.

Lemma days_before_year_succ y :
  _days_before_year (y + 1) = _days_before_year y + 365 + leap_day y.
Proof.
  unfold leap_day, _days_before_year; cbv zeta.
  case_leap y; dlia.
Qed.

(** A whole year lies between the first days of two different years. *)
Lemma days_before_year_lt y1 y2 :
  y1 < y2 -> _days_before_year y1 + 365 + leap_day y1 <= _days_before_year y2.
Proof.
  intros Hlt. unfold leap_day, _days_before_year; cbv zeta.
  case_leap y1; dlia.
Qed.

Lemma day_of_year_bounds y m d :
  1 <= m <= 12 -> 1 <= d <= _days_in_month y m ->
  1 <= _days_before_month y m + d <= 365 + leap_day y.
Proof.
  intros Hm Hd. unfold _days_in_month, _days_before_month, leap_day in *.
  destruct (_is_leap y); enum_1_12 m; simpl in *; lia.
Qed.

Lemma days_before_month_lt y m1 m2 d :
  1 <= m1 -> m1 < m2 -> m2 <= 12 -> d <= _days_in_month y m1 ->
  _days_before_month y m1 + d <= _days_before_month y m2.
Proof.
  intros H1 H2 H3 Hd. unfold _days_in_month, _days_before_month in *.
  destruct (_is_leap y); enum_1_12 m1; enum_1_12 m2; simpl in *; lia.
Qed.

(** Comparing dates is comparing their day numbers. *)
Lemma cmp_toordinal x y :
  valid x -> valid y -> _cmp x y = (toordinal x ?= toordinal y).
Proof.
  intros (Hy1 & Hm1 & Hd1) (Hy2 & Hm2 & Hd2).
  unfold _cmp, toordinal, _ymd2ord.
  destruct x as [y1 m1 d1], y as [y2 m2 d2]; simpl in *.
  pose proof (day_of_year_bounds y1 m1 d1 Hm1 Hd1) as B1.
  pose proof (day_of_year_bounds y2 m2 d2 Hm2 Hd2) as B2.
  destruct (Z.compare_spec y1 y2) as [-> | Hlt | Hgt].
  - destruct (Z.compare_spec m1 m2) as [-> | Hlt | Hgt].
    + symmetry. apply Z.add_compare_mono_l.
    + symmetry. apply Z.compare_lt_iff.
      pose proof (days_before_month_lt y2 m1 m2 d1). lia.
    + symmetry. apply Z.compare_gt_iff.
      pose proof (days_before_month_lt y2 m2 m1 d2). lia.
  - symmetry. apply Z.compare_lt_iff.
    pose proof (days_before_year_lt y1 y2 Hlt). lia.
  - symmetry. apply Z.compare_gt_iff.
    pose proof (days_before_year_lt y2 y1 Hgt). lia.
Qed.

Lemma ltb_toordinal x y :
  valid x -> valid y -> ltb x y = (toordinal x <? toordinal y).
Proof.
  intros Hx Hy. unfold ltb, Z.ltb. rewrite (cmp_toordinal x y Hx Hy).
  destruct (_ ?= _); reflexivity.
Qed.

Lemma leb_toordinal x y :
  valid x -> valid y -> leb x y = (toordinal x <=? toordinal y).
Proof.
  intros Hx Hy. unfold leb, Z.leb. rewrite (cmp_toordinal x y Hx Hy).
  destruct (_ ?= _); reflexivity.
Qed.

Lemma toordinal_bounds x : valid x -> 1 <= toordinal x <= _MAXORDINAL.
Proof.
  intros (Hy & Hm & Hd). unfold toordinal, _ymd2ord, _MAXORDINAL.
  pose proof (day_of_year_bounds _ _ _ Hm Hd) as B.
  pose proof (leap_day_range (year x)) as L.
  assert (_days_before_year 1 = 0) as E1 by reflexivity.
  assert (_days_before_year 10000 = 3652059) as E2 by reflexivity.
  split.
  - destruct (Z.eq_dec (year x) 1) as [E | Hne]; [rewrite E in *; lia|].
    assert (leap_day 1 = 0) as E3 by reflexivity.
    pose proof (days_before_year_lt 1 (year x)). lia.
  - pose proof (days_before_year_lt (year x) 10000). lia.
Qed.

Lemma forall_from_spec (p : Z -> bool) fuel :
  forall lo z,
  forall_from p fuel lo = true -> lo <= z < lo + Z.of_nat fuel -> p z = true.
Proof.
  induction fuel as [|k IH]; intros lo z Hall Hz; [lia|].
  cbn [forall_from] in Hall. apply andb_true_iff in Hall as [Hlo Hrest].
  destruct (Z.eq_dec z lo) as [-> | Hne]; [exact Hlo|].
  apply (IH (lo + 1)); [exact Hrest | lia].
Qed.

Lemma month_day_spec leapyear n :
  0 <= n < 365 -> month_day_ok leapyear n = true.
Proof.
  intros Hn.
  apply (forall_from_spec (month_day_ok leapyear) (Z.to_nat 365) 0); [|lia].
  destruct leapyear; vm_compute; reflexivity.
Qed.

Lemma ord2ymd_unfold n :
  _ord2ymd n =
    let n0 := n - 1 in
    let n400 := n0 / 146097 in
    let r1 := n0 mod 146097 in
    let n100 := r1 / 36524 in
    let r2 := r1 mod 36524 in
    let n4 := r2 / 1461 in
    let r3 := r2 mod 1461 in
    let n1 := r3 / 365 in
    let r4 := r3 mod 365 in
    let y := n400 * 400 + 1 + n100 * 100 + n4 * 4 + n1 in
    if (n1 =? 4) || (n100 =? 4) then (y - 1, 12, 31)
    else
      let md := month_day r4 ((n1 =? 3) && (negb (n4 =? 24) || (n100 =? 3))) in
      (y, md.1, md.2).
Proof.
  unfold _ord2ymd, month_day, _DI400Y, _DI100Y, _DI4Y; cbv zeta.
  destruct (_ || _); [reflexivity|].
  destruct (_ <? _); reflexivity.
Qed.

(** [fromordinal] inverts [toordinal] on the whole range of day numbers. *)
Lemma fromordinal_spec n :
  1 <= n <= _MAXORDINAL ->
  valid (fromordinal n) /\ toordinal (fromordinal n) = n.
Proof.
  unfold _MAXORDINAL. intros Hn.
  unfold fromordinal. rewrite ord2ymd_unfold. cbv zeta.
  set (n0 := n - 1).
  set (n400 := n0 / 146097). set (r1 := n0 mod 146097).
  set (n100 := r1 / 36524). set (r2 := r1 mod 36524).
  set (n4 := r2 / 1461). set (r3 := r2 mod 1461).
  set (n1 := r3 / 365). set (r4 := r3 mod 365).
  assert (n0 = 146097 * n400 + r1 /\ 0 <= r1 < 146097) as (E0 & B1)
    by (subst n400 r1; dlia).
  assert (r1 = 36524 * n100 + r2 /\ 0 <= r2 < 36524) as (E1 & B2)
    by (subst n100 r2; dlia).
  assert (r2 = 1461 * n4 + r3 /\ 0 <= r3 < 1461) as (E2 & B3)
    by (subst n4 r3; dlia).
  assert (r3 = 365 * n1 + r4 /\ 0 <= r4 < 365) as (E3 & B4)
    by (subst n1 r4; dlia).
  assert (0 <= n400 <= 24 /\ 0 <= n100 <= 4 /\ 0 <= n4 <= 24 /\ 0 <= n1 <= 4)
    as (B400 & B100 & B04 & B01) by lia.
  clearbody n400 r1 n100 r2 n4 r3 n1 r4.
  destruct ((n1 =? 4) || (n100 =? 4)) eqn:Hspecial.
  - unfold valid, toordinal, _ymd2ord, _days_in_month, _days_before_month,
      _days_before_year; cbn [year month day]; cbv zeta.
    replace (12 =? 2) with false by reflexivity.
    replace (2 <? 12) with true by reflexivity.
    cbn [andb _DAYS_IN_MONTH _DAYS_BEFORE_MONTH].
    apply orb_true_iff in Hspecial. rewrite !Z.eqb_eq in Hspecial.
    set (y := n400 * 400 + 1 + n100 * 100 + n4 * 4 + n1 - 1).
    assert (_is_leap y = true) as ->.
    { apply is_leap_true. subst y. dlia. }
    subst y. dlia.
  - apply orb_false_iff in Hspecial. rewrite !Z.eqb_neq in Hspecial.
    set (leapyear := (n1 =? 3) && (negb (n4 =? 24) || (n100 =? 3))).
    set (y := n400 * 400 + 1 + n100 * 100 + n4 * 4 + n1).
    assert (_is_leap y = leapyear) as Hleap.
    { subst leapyear. destruct ((n1 =? 3) && _) eqn:E.
      - apply is_leap_true.
        rewrite andb_true_iff, orb_true_iff, negb_true_iff, !Z.eqb_eq, Z.eqb_neq in E.
        subst y. dlia.
      - apply is_leap_false.
        rewrite andb_false_iff, orb_false_iff, negb_false_iff, !Z.eqb_eq, !Z.eqb_neq in E.
        subst y. dlia. }
    assert (_days_before_year y = n0 - r4) as Hdby.
    { unfold _days_before_year; cbv zeta. subst y. dlia. }
    pose proof (month_day_spec leapyear r4 B4) as Hmd.
    unfold month_day_ok in Hmd.
    destruct (month_day r4 leapyear) as [m d]. cbn [fst snd].
    rewrite !andb_true_iff, !Z.leb_le, Z.eqb_eq in Hmd.
    destruct Hmd as ((((Hm1 & Hm2) & Hd1) & Hd2) & Hsum).
    unfold valid, toordinal, _ymd2ord, _days_in_month, _days_before_month.
    cbn [year month day]. rewrite Hleap, Hdby.
    subst y n0. lia.
Qed.

(** The constructor accepts exactly the valid triples. *)
Lemma new_valid y m d :
  valid (mkdate y m d) -> new y m d = Ok (mkdate y m d).
Proof.
  unfold valid, new, _check_date_fields, MINYEAR, MAXYEAR. cbn [year month day].
  intros (Hy & Hm & Hd).
  replace ((1 <=? y) && (y <=? 9999)) with true by (symmetry; apply andb_true_iff; lia).
  replace ((1 <=? m) && (m <=? 12)) with true by (symmetry; apply andb_true_iff; lia).
  replace ((1 <=? d) && (d <=? _days_in_month y m)) with true
    by (symmetry; apply andb_true_iff; lia).
  reflexivity.
Qed.

Lemma new_Ok y m d x :
  new y m d = Ok x -> x = mkdate y m d /\ valid x.
Proof.
  unfold valid, new, _check_date_fields, MINYEAR, MAXYEAR.
  destruct ((1 <=? y) && (y <=? 9999)) eqn:Ey; [|discriminate].
  destruct ((1 <=? m) && (m <=? 12)) eqn:Em; [|discriminate].
  destruct ((1 <=? d) && (d <=? _days_in_month y m)) eqn:Ed; [|discriminate].
  cbn. intros [= <-]. cbn [year month day].
  rewrite andb_true_iff, !Z.leb_le in Ey, Em, Ed. split; [reflexivity | lia].
Qed.

Lemma new_Raise y m d e :
  new y m d = Raise e -> ~ valid (mkdate y m d) /\ exists msg, e = ValueError msg.
Proof.
  unfold valid, new, _check_date_fields, MINYEAR, MAXYEAR. cbn [year month day].
  destruct ((1 <=? y) && (y <=? 9999)) eqn:Ey; cbn.
  - destruct ((1 <=? m) && (m <=? 12)) eqn:Em; cbn.
    + destruct ((1 <=? d) && (d <=? _days_in_month y m)) eqn:Ed; cbn; [discriminate|].
      intros [= <-]. rewrite andb_false_iff, !Z.leb_gt in Ed. split; [lia | eauto].
    + intros [= <-]. rewrite andb_false_iff, !Z.leb_gt in Em. split; [lia | eauto].
  - intros [= <-]. rewrite andb_false_iff, !Z.leb_gt in Ey. split; [lia | eauto].
Qed.

Lemma add_days_Ok x k x' :
  add_days x k = Ok x' -> valid x' /\ toordinal x' = toordinal x + k.
Proof.
  unfold add_days.
  destruct ((0 <? toordinal x + k) && (toordinal x + k <=? _MAXORDINAL)) eqn:E;
    [|discriminate].
  intros [= <-]. rewrite andb_true_iff, Z.ltb_lt, Z.leb_le in E.
  apply fromordinal_spec. lia.
Qed.

Lemma add_days_in_range x k :
  1 <= toordinal x + k <= _MAXORDINAL ->
  add_days x k = Ok (fromordinal (toordinal x + k)).
Proof.
  intros H. unfold add_days.
  replace ((0 <? toordinal x + k) && (toordinal x + k <=? _MAXORDINAL)) with true
    by (symmetry; apply andb_true_iff; lia).
  reflexivity.
Qed.

End Calendar.

(** ** The upcoming-birthday report *)

Section Report.
Import datetime.

Lemma toordinal_inj x y :
  valid x -> valid y -> toordinal x = toordinal y -> x = y.
Proof.
  intros Hx Hy He.
  pose proof (cmp_toordinal x y Hx Hy) as Hc.
  rewrite He, Z.compare_refl in Hc. unfold _cmp in Hc.
  destruct x as [y1 m1 d1], y as [y2 m2 d2].
  cbn [year month day] in Hc.
  destruct (Z.compare_spec y1 y2); try discriminate.
  destruct (Z.compare_spec m1 m2); try discriminate.
  apply Z.compare_eq in Hc. congruence.
Qed.

Lemma fromordinal_toordinal x : valid x -> fromordinal (toordinal x) = x.
Proof.
  intros Hx.
  destruct (fromordinal_spec (toordinal x) (toordinal_bounds x Hx)) as [Hv He].
  apply toordinal_inj; assumption.
Qed.

Lemma weekend_shift_range c : 0 <= weekend_shift c <= 2.
Proof. unfold weekend_shift. repeat destruct (_ =? _); lia. Qed.

(** The last day of the calendar is a Friday, so the shift of a weekend
    day never leaves the calendar. *)
Lemma shifted_in_range c :
  valid c -> 1 <= toordinal c + weekend_shift c <= _MAXORDINAL.
Proof.
  intros Hc. pose proof (toordinal_bounds c Hc) as B.
  unfold weekend_shift, weekday, _MAXORDINAL in *.
  destruct (_ =? 5) eqn:E5; [apply Z.eqb_eq in E5; dlia|].
  destruct (_ =? 6) eqn:E6; [apply Z.eqb_eq in E6; dlia|].
  lia.
Qed.

Lemma shifted_spec c :
  valid c ->
  valid (shifted c)
  /\ toordinal (shifted c) = toordinal c + weekend_shift c
  /\ (weekday c = 5 -> toordinal (shifted c) = toordinal c + 2 /\ weekday (shifted c) = 0)
  /\ (weekday c = 6 -> toordinal (shifted c) = toordinal c + 1 /\ weekday (shifted c) = 0)
  /\ (weekday c < 5 -> shifted c = c).
Proof.
  intros Hc.
  assert (valid (shifted c) /\ toordinal (shifted c) = toordinal c + weekend_shift c)
    as [Hv He] by (apply fromordinal_spec, shifted_in_range, Hc).
  split; [exact Hv|]. split; [exact He|].
  assert (weekday (shifted c) = (toordinal c + weekend_shift c + 6) mod 7) as Hwd
    by (unfold weekday; rewrite He; reflexivity).
  rewrite Hwd, He. clear Hwd.
  unfold weekend_shift, weekday.
  split; [|split]; intros Hw.
  - rewrite Hw. cbn. dlia.
  - rewrite Hw. cbn. dlia.
  - unfold shifted, weekend_shift, weekday.
    destruct (_ =? 5) eqn:E5; [apply Z.eqb_eq in E5; lia|].
    destruct (_ =? 6) eqn:E6; [apply Z.eqb_eq in E6; lia|].
    rewrite Z.add_0_r. apply fromordinal_toordinal, Hc.
Qed.

Lemma congratulation_date_spec c :
  valid c -> AddressBook.congratulation_date c = Ok (shifted c).
Proof.
  intros Hc. unfold AddressBook.congratulation_date.
  pose proof (shifted_in_range c Hc) as R.
  destruct (shifted_spec c Hc) as (_ & _ & _ & _ & Hsame).
  assert (0 <= weekday c < 7) as Hw by (unfold weekday; dlia).
  destruct (5 <=? weekday c) eqn:E.
  - apply Z.leb_le in E.
    assert (7 - weekday c = weekend_shift c) as ->.
    { unfold weekend_shift.
      destruct (_ =? 5) eqn:E5; [apply Z.eqb_eq in E5; lia|].
      destruct (_ =? 6) eqn:E6; [apply Z.eqb_eq in E6; lia|].
      apply Z.eqb_neq in E5, E6. lia. }
    apply add_days_in_range, R.
  - apply Z.leb_gt in E. rewrite Hsame by lia. reflexivity.
Qed.

Lemma candidate_spec today b c :
  valid today ->
  AddressBook.candidate today b = Ok c ->
  valid c
  /\ month c = month (Birthday.value b)
  /\ day c = day (Birthday.value b)
  /\ ((year c = year today /\ toordinal today <= toordinal c)
      \/ (year c = year today + 1
          /\ toordinal (mkdate (year today) (month c) (day c)) < toordinal today)).
Proof.
  intros Ht. unfold AddressBook.candidate, replace_year.
  destruct (new (year today) _ _) as [c0|] eqn:E0; cbn; [|discriminate].
  apply new_Ok in E0 as [-> Hv0].
  rewrite (ltb_toordinal _ _ Hv0 Ht). cbn [year month day].
  destruct (_ <? _) eqn:Elt.
  - intros E1. apply new_Ok in E1 as [-> Hv1]. cbn [year month day].
    apply Z.ltb_lt in Elt. repeat split; try apply Hv1. right. split; [reflexivity|exact Elt].
  - intros [= <-]. cbn [year month day]. apply Z.ltb_ge in Elt.
    repeat split; try apply Hv0. left. split; [reflexivity|exact Elt].
Qed.

Lemma greeting_spec pads today next_week rec b c :
  valid today ->
  add_days today 7 = Ok next_week ->
  Record.birthday rec = Some b ->
  AddressBook.candidate today b = Ok c ->
  AddressBook.greeting pads today next_week rec =
    Ok (if in_window today c then
          Some (strftime_Ymd pads (shifted c) +:+ ": " +:+ Name.value (Record.name rec))
        else None).
Proof.
  intros Ht Hnw Hb Hc. unfold AddressBook.greeting. rewrite Hb, Hc. cbn.
  destruct (candidate_spec _ _ _ Ht Hc) as (Hv & _).
  destruct (add_days_Ok _ _ _ Hnw) as [Hvn Hon].
  rewrite (leb_toordinal _ _ Ht Hv), (leb_toordinal _ _ Hv Hvn), Hon.
  fold (in_window today c).
  destruct (in_window today c); [|reflexivity].
  rewrite (congratulation_date_spec c Hv). reflexivity.
Qed.

Lemma greeting_no_birthday pads today next_week rec :
  Record.birthday rec = None ->
  AddressBook.greeting pads today next_week rec = Ok None.
Proof. intros Hb. unfold AddressBook.greeting. rewrite Hb. reflexivity. Qed.

Lemma greetings_loop_spec pads today next_week (g : Record.t -> option string) recs :
  forall acc,
  (forall rec, rec ∈ recs -> AddressBook.greeting pads today next_week rec = Ok (g rec)) ->
  AddressBook._greetings_loop pads today next_week recs acc = Ok (acc ++ omap g recs)%list.
Proof.
  induction recs as [|rec rest IH]; intros acc Hall; cbn.
  - rewrite app_nil_r. reflexivity.
  - rewrite (Hall rec) by (left). cbn.
    rewrite IH by (intros r Hr; apply Hall; right; exact Hr).
    destruct (g rec); [rewrite <- app_assoc|]; reflexivity.
Qed.

Lemma greetings_loop_raises pads today next_week recs :
  forall acc rec e,
  rec ∈ recs ->
  AddressBook.greeting pads today next_week rec = Raise e ->
  exists e', AddressBook._greetings_loop pads today next_week recs acc = Raise e'.
Proof.
  induction recs as [|r rest IH]; intros acc rec e Hin Hraise.
  - inversion Hin.
  - cbn. destruct (AddressBook.greeting pads today next_week r) as [line|e0] eqn:Er; cbn.
    + apply elem_of_cons in Hin as [-> | Hin]; [congruence|].
      eapply IH; eauto.
    + eauto.
Qed.

End Report.

Section ReportClaims.
Import datetime.

Lemma fmt_02d_dec2 n : 0 <= n < 100 -> fmt_02d n = dec2 n.
Proof.
  intros Hn.
  apply String.eqb_eq.
  apply (forall_from_spec (fun n => String.eqb (fmt_02d n) (dec2 n)) (Z.to_nat 100) 0);
    [|lia].
  vm_compute. reflexivity.
Qed.

Lemma fmt_Y_dec4 pads y :
  0 <= y < 10000 -> pads = true \/ 1000 <= y -> fmt_Y pads y = dec4 y.
Proof.
  intros Hy [-> | Hbig].
  - apply String.eqb_eq.
    apply (forall_from_spec (fun y => String.eqb (fmt_Y true y) (dec4 y))
             (Z.to_nat 10000) 0); [|lia].
    vm_compute. reflexivity.
  - apply String.eqb_eq.
    apply (forall_from_spec (fun y => String.eqb (fmt_Y pads y) (dec4 y))
             (Z.to_nat 9000) 1000); [|lia].
    destruct pads; vm_compute; reflexivity.
Qed.

Lemma days_in_month_le y m : 1 <= m <= 12 -> 28 <= _days_in_month y m <= 31.
Proof.
  intros Hm. unfold _days_in_month.
  destruct (_ && _); [lia|]. enum_1_12 m; cbn; lia.
Qed.

Lemma valid_fields x :
  valid x -> 0 <= year x < 10000 /\ 0 <= month x < 100 /\ 0 <= day x < 100.
Proof.
  intros (Hy & Hm & Hd). pose proof (days_in_month_le (year x) _ Hm). lia.
Qed.


End ReportClaims.

Section WindowClaims.
Import datetime.

Lemma in_window_iff today c :
  in_window today c = true
  <-> toordinal today <= toordinal c <= toordinal today + 7.
Proof. unfold in_window. rewrite andb_true_iff, !Z.leb_le. reflexivity. Qed.








(** C9 (the code does not do this). With a Birthday on February 29 in the
    book and a today whose year is not a leap year, the date replacement
    raises: the query ends in an exception instead of a report, and so
    does the undecorated [birthdays] command. *)
Theorem leap_day_birthday_raises pads today book rec b :
  valid today ->
  _is_leap (year today) = false ->
  rec ∈ AddressBook.values book ->
  Record.birthday rec = Some b ->
  month (Birthday.value b) = 2 ->
  day (Birthday.value b) = 29 ->
  exists e,
    AddressBook.get_upcoming_birthdays pads today book = Raise e
    /\ birthdays pads today book = Raise e.
Proof.
  intros Ht Hleap Hin Hb Hm Hd.
  assert (exists e, AddressBook.get_upcoming_birthdays pads today book = Raise e)
    as [e He]; [|exists e; split; [exact He | unfold birthdays; rewrite He; reflexivity]].
  unfold AddressBook.get_upcoming_birthdays.
  destruct (add_days today 7) as [next_week|e] eqn:Enw; cbn [rbind]; [|eauto].
  assert (exists e, AddressBook.greeting pads today next_week rec = Raise e) as [e He].
  { unfold AddressBook.greeting, AddressBook.candidate, replace_year.
    rewrite Hb, Hm, Hd.
    destruct (new (year today) 2 29) as [x|e] eqn:En.
    - apply new_Ok in En as [-> (_ & _ & Hday)]. cbn [year month day] in Hday.
      unfold _days_in_month in Hday. rewrite Hleap in Hday. cbn in Hday. lia.
    - cbn. eauto. }
  eapply greetings_loop_raises; eauto.
Qed.

(** On 2023-06-10 the book with Cyd, born on 29.02.2000, has no report. *)
Lemma leap_day_birthday_raises_witness :
  exists e,
    AddressBook.get_upcoming_birthdays false (mkdate 2023 6 10) leap_book = Raise e
    /\ birthdays false (mkdate 2023 6 10) leap_book = Raise e.
Proof.
  apply (leap_day_birthday_raises false (mkdate 2023 6 10) leap_book cyd
           (Birthday.mk (mkdate 2000 2 29))).
  - unfold valid; cbn; lia.
  - reflexivity.
  - cbn. right. left.
  - reflexivity.
  - reflexivity.
  - reflexivity.
Defined.

End WindowClaims.

(** ** The book as a dictionary *)

Section Dictionary.

Lemma setitem_same k v (data : AddressBook.t) :
  AddressBook.get k data = Some v -> AddressBook._setitem k v data = data.
Proof.
  induction data as [|[k' v'] rest IH]; cbn; [discriminate|].
  destruct (String.eqb k' k); [intros [= ->]; reflexivity|].
  intros H. rewrite (IH H). reflexivity.
Qed.

Lemma setitem_new k v (data : AddressBook.t) :
  AddressBook.get k data = None -> AddressBook._setitem k v data = (data ++ [(k, v)])%list.
Proof.
  induction data as [|[k' v'] rest IH]; cbn; [reflexivity|].
  destruct (String.eqb k' k); [discriminate|].
  intros H. rewrite (IH H). reflexivity.
Qed.

Lemma get_setitem k v (data : AddressBook.t) :
  AddressBook.get k (AddressBook._setitem k v data) = Some v.
Proof.
  induction data as [|[k' v'] rest IH]; cbn.
  - rewrite String.eqb_refl. reflexivity.
  - destruct (String.eqb k' k) eqn:E; cbn; rewrite E; [reflexivity | exact IH].
Qed.

Lemma get_setitem_other k k' v (data : AddressBook.t) :
  k <> k' -> AddressBook.get k' (AddressBook._setitem k v data) = AddressBook.get k' data.
Proof.
  intros Hne. induction data as [|[k0 v0] rest IH]; cbn.
  - destruct (String.eqb_spec k k'); [contradiction | reflexivity].
  - destruct (String.eqb_spec k0 k) as [-> | Hk]; cbn.
    + destruct (String.eqb_spec k k'); [contradiction | reflexivity].
    + rewrite IH. reflexivity.
Qed.

Lemma len_zero s : (len s =? 0) = true <-> s = "".
Proof.
  unfold len. rewrite Z.eqb_eq. destruct s; cbn; split; intros H;
    try reflexivity; try discriminate; lia.
Qed.

Lemma len_nonzero s : s <> "" -> (len s =? 0) = false.
Proof.
  intros H. destruct (len s =? 0) eqn:E; [|reflexivity].
  apply len_zero in E. contradiction.
Qed.

End Dictionary.

(** ** Setting the Birthday once *)

Section BirthdayOnce.

Lemma strptime_raises_value_error s e :
  strptime_dmY s = Raise e -> exists msg, e = ValueError msg.
Proof.
  unfold strptime_dmY.
  destruct (found_dmY s) as [|[[[d m] Y] rest] tl]; [intros [= <-]; eauto|].
  destruct (negb _); [intros [= <-]; eauto|].
  intros H. apply new_Raise in H as [_ H]. exact H.
Qed.

Lemma birthday_new_cases s :
  (exists b, Birthday.new s = Ok b)
  \/ Birthday.new s = Raise (ValueError "Invalid date format. Use DD.MM.YYYY").
Proof.
  unfold Birthday.new. destruct (strptime_dmY s) as [dt|e] eqn:E; [eauto|].
  apply strptime_raises_value_error in E as [msg ->]. right. reflexivity.
Qed.

(** C6. On a Record whose Birthday is set, [add_birthday] raises
    "Birthday already set." whatever the new text is and leaves the Record
    as it was; so does a second call after a first one that succeeded. The
    command of the same name then answers with that message and leaves the
    book as it was. On a Record without a Birthday, [add_birthday]
    validates the text: it sets the Birthday when the text is accepted and
    raises the validation error, changing nothing, when it is not. *)
Theorem add_birthday_set_once :
  (forall rec b s,
     Record.birthday rec = Some b ->
     Record.add_birthday s rec = (Raise (ValueError "Birthday already set."), rec))
  /\ (forall rec s1 s2 rec',
        Record.add_birthday s1 rec = (Ok tt, rec') ->
        Record.add_birthday s2 rec' = (Raise (ValueError "Birthday already set."), rec'))
  /\ (forall book name rec b s rest,
        AddressBook.find name book = Some rec ->
        Record.birthday rec = Some b ->
        add_birthday (name :: s :: rest) book = (Ok "Birthday already set.", book))
  /\ (forall rec s,
        Record.birthday rec = None ->
        (exists b, Birthday.new s = Ok b
                   /\ Record.add_birthday s rec
                      = (Ok tt, Record.with_birthday rec (Some b)))
        \/ (Birthday.new s = Raise (ValueError "Invalid date format. Use DD.MM.YYYY")
            /\ Record.add_birthday s rec
               = (Raise (ValueError "Invalid date format. Use DD.MM.YYYY"), rec))).
Proof.
  assert (forall rec b s,
     Record.birthday rec = Some b ->
     Record.add_birthday s rec = (Raise (ValueError "Birthday already set."), rec))
    as Hset.
  { intros rec b s Hb. unfold Record.add_birthday. rewrite Hb. reflexivity. }
  split; [exact Hset|]. split; [|split].
  - intros rec s1 s2 rec' H1. unfold Record.add_birthday in H1.
    destruct (Record.birthday rec); [discriminate|].
    destruct (Birthday.new s1) as [b|]; [|discriminate].
    injection H1 as <-. apply (Hset _ b). reflexivity.
  - intros book name rec b s rest Hfind Hb.
    unfold add_birthday, input_error, bind, lift, gets, on_record, unpack2.
    rewrite Hfind. cbn beta iota. rewrite Hfind, (Hset rec b s Hb).
    rewrite (setitem_same _ _ _ Hfind). reflexivity.
  - intros rec s Hb. unfold Record.add_birthday. rewrite Hb.
    destruct (birthday_new_cases s) as [[b ->] | ->]; [left; eauto | right; auto].
Qed.

Lemma add_birthday_set_once_witness :
  Record.add_birthday "02.02.2002" ann
    = (Raise (ValueError "Birthday already set."), ann)
  /\ add_birthday ["Ann"; "02.02.2002"] sample_book
     = (Ok "Birthday already set.", sample_book)
  /\ Record.add_birthday "02.02.2002" fay
     = (Ok tt, Record.with_birthday fay (Some (Birthday.mk (datetime.mkdate 2002 2 2)))).
Proof.
  destruct add_birthday_set_once as (Hset & _ & Hcmd & Hnew).
  split; [|split].
  - apply (Hset ann (Birthday.mk (datetime.mkdate 1990 6 15))). reflexivity.
  - apply (Hcmd sample_book "Ann" ann (Birthday.mk (datetime.mkdate 1990 6 15)));
      reflexivity.
  - reflexivity.
Defined.

End BirthdayOnce.

(** ** Persistence *)

Section PersistenceClaims.
Context {P : Pickle}.

(** C7. When no file exists under the path, [load_data] returns a new,
    empty book; it does not raise. *)
Theorem load_data_missing_file (filename : string) (fs : filesystem) :
  fs !! filename = None ->
  load_data filename fs = Ok AddressBook.empty.
Proof.
  intros Hmissing. unfold load_data, open_rb. rewrite Hmissing. reflexivity.
Qed.

(** C1. With a serializer that keeps its promise, loading after saving
    under the same path returns the saved book, whatever the files held
    before (an older save under that path included): the same names in the
    same order and, name by name, the same phones, the same Birthday if
    any and the same addresses. *)
Theorem save_load_round_trip {F : PickleFaithful P}
    (book : AddressBook.t) (filename : string) (fs : filesystem) :
  (exists loaded,
     load_data filename (save_data book filename fs) = Ok loaded
     /\ AddressBook.keys loaded = AddressBook.keys book
     /\ forall name rec,
          AddressBook.find name book = Some rec ->
          exists rec',
            AddressBook.find name loaded = Some rec'
            /\ Record.name rec' = Record.name rec
            /\ Record.phones rec' = Record.phones rec
            /\ Record.birthday rec' = Record.birthday rec
            /\ Record.addresses rec' = Record.addresses rec)
  /\ (forall older,
        load_data filename (save_data book filename (save_data older filename fs))
          = Ok book)
  /\ (forall other,
        other <> filename -> save_data book filename fs !! other = fs !! other).
Proof.
  assert (forall fs', load_data filename (save_data book filename fs') = Ok book)
    as Hload.
  { intros fs'. unfold load_data, save_data, open_rb.
    rewrite lookup_insert_eq. cbn [rbind].
    rewrite pickle_load_dump. reflexivity. }
  split; [|split].
  - exists book. split; [apply Hload|]. split; [reflexivity | eauto 10].
  - intros older. apply Hload.
  - intros other Hne. unfold save_data. apply lookup_insert_ne. congruence.
Qed.

End PersistenceClaims.

Lemma memory_pickle_faithful : PickleFaithful memory_pickle.
Proof. intros book. reflexivity. Qed.

Lemma load_data_missing_file_witness :
  @load_data memory_pickle "addressbook.pkl" ∅ = Ok AddressBook.empty.
Proof.
  apply (@load_data_missing_file memory_pickle "addressbook.pkl" ∅).
  reflexivity.
Defined.

Lemma save_load_round_trip_witness :
  @load_data memory_pickle "addressbook.pkl"
    (@save_data memory_pickle sample_book "addressbook.pkl"
       (@save_data memory_pickle leap_book "addressbook.pkl" ∅))
  = Ok sample_book.
Proof.
  exact (proj1 (proj2 (@save_load_round_trip memory_pickle memory_pickle_faithful
                         sample_book "addressbook.pkl" ∅)) leap_book).
Defined.

(** ** Address commands *)

Section AddressClaims.

Lemma replace_first_absent old new (l : list Address.t) :
  (forall a, a ∈ l -> Address.value a <> old) ->
  replace_first old new l = None.
Proof.
  induction l as [|a rest IH]; intros Hall; cbn; [reflexivity|].
  destruct (String.eqb_spec (Address.value a) old) as [E | _].
  - exfalso. apply (Hall a); [left | exact E].
  - rewrite IH; [reflexivity|]. intros x Hx. apply Hall. right. exact Hx.
Qed.

Lemma filter_absent a (l : list Address.t) :
  (forall x, x ∈ l -> Address.value x <> a) ->
  filter (fun addr => Address.value addr <> a) l = l.
Proof.
  induction l as [|x rest IH]; intros Hall; [reflexivity|].
  rewrite filter_cons_True by (apply Hall; left).
  rewrite IH; [reflexivity|]. intros y Hy. apply Hall. right. exact Hy.
Qed.

Lemma with_addresses_same rec l :
  Record.addresses rec = Some l -> Record.with_addresses rec (Some l) = rec.
Proof. destruct rec; cbn. intros ->. reflexivity. Qed.

(** C8, as the code has it. For an existing contact whose Record holds an
    address list without the given address (an empty list in particular),
    [change_address] answers "Old address not found." and
    [remove_address] answers "Address removed.", and both leave the book
    as it was. For an existing contact whose Record never got an address
    (it has no address list at all), both commands answer
    "Contact not found." and leave the book as it was. *)
Theorem address_commands_no_match book name rec :
  AddressBook.find name book = Some rec ->
  (forall l old new rest,
     Record.addresses rec = Some l ->
     (forall a, a ∈ l -> Address.value a <> old) ->
     change_address (name :: old :: new :: rest) book
       = (Ok "Old address not found.", book))
  /\ (forall l a rest,
        Record.addresses rec = Some l ->
        (forall x, x ∈ l -> Address.value x <> a) ->
        remove_address (name :: a :: rest) book = (Ok "Address removed.", book))
  /\ (Record.addresses rec = None ->
      (forall old new rest,
         change_address (name :: old :: new :: rest) book
           = (Ok "Contact not found.", book))
      /\ (forall a rest,
            remove_address (name :: a :: rest) book
              = (Ok "Contact not found.", book))).
Proof.
  intros Hfind. split; [|split].
  - intros l old new rest Hl Habsent.
    unfold change_address, input_error, bind, lift, gets, unpack3.
    rewrite Hfind. cbn beta iota. rewrite Hl, (replace_first_absent _ _ _ Habsent).
    reflexivity.
  - intros l a rest Hl Habsent.
    unfold remove_address, input_error, bind, lift, gets, on_record, unpack2.
    rewrite Hfind. cbn beta iota. rewrite Hl. cbn beta iota. rewrite Hfind.
    rewrite (filter_absent _ _ Habsent), (with_addresses_same _ _ Hl).
    rewrite (setitem_same _ _ _ Hfind). reflexivity.
  - intros Hnone. split.
    + intros old new rest.
      unfold change_address, input_error, bind, lift, gets, unpack3.
      rewrite Hfind. cbn beta iota. rewrite Hnone. reflexivity.
    + intros a rest.
      unfold remove_address, input_error, bind, lift, gets, unpack2.
      rewrite Hfind. cbn beta iota. rewrite Hnone. reflexivity.
Qed.

(** Ann exists and never got an address: [change_address] and
    [remove_address] report a missing contact. *)
Lemma address_commands_missing_contact_error :
  AddressBook.find "Ann" sample_book = Some ann
  /\ Record.addresses ann = None
  /\ change_address ["Ann"; "Kyiv"; "Lviv"] sample_book
     = (Ok "Contact not found.", sample_book)
  /\ remove_address ["Ann"; "Kyiv"] sample_book
     = (Ok "Contact not found.", sample_book).
Proof. repeat split. Qed.

Lemma address_commands_no_match_witness :
  change_address ["Ann"; "Kyiv"; "Lviv"] [("Ann", ann_no_addresses)]
    = (Ok "Old address not found.", [("Ann", ann_no_addresses)])
  /\ remove_address ["Ann"; "Kyiv"] [("Ann", ann_no_addresses)]
     = (Ok "Address removed.", [("Ann", ann_no_addresses)])
  /\ change_address ["Ann"; "Kyiv"; "Lviv"] sample_book
     = (Ok "Contact not found.", sample_book).
Proof.
  pose proof (address_commands_no_match [("Ann", ann_no_addresses)] "Ann"
                ann_no_addresses eq_refl) as (Hchange & Hremove & _).
  pose proof (address_commands_no_match sample_book "Ann" ann eq_refl)
    as (_ & _ & Hnone).
  split; [|split].
  - apply (Hchange []); [reflexivity|]. intros a Ha. inversion Ha.
  - apply (Hremove []); [reflexivity|]. intros a Ha. inversion Ha.
  - apply Hnone. reflexivity.
Defined.

End AddressClaims.

(** ** Adding a contact *)

Section AddContactClaims.

(** C10, as the code has it. For a book that does not hold the name, a
    name that is not empty and a phone text that is not empty and that
    the Phone validation rejects, [add_contact] answers with the
    validation message, and the book afterwards is the old one followed by
    the new Record with no phone: the insertion is not undone. *)
Theorem add_contact_keeps_new_record book name phone rest :
  AddressBook.find name book = None ->
  name <> "" ->
  phone <> "" ->
  Phone._validate phone = false ->
  add_contact (name :: phone :: rest) book
    = (Ok "Phone number must contain exactly 10 digits.",
       (book ++ [(name, Record.mk (Name.mk name) [] None None)])%list).
Proof.
  intros Hfind Hname Hphone Hinvalid.
  unfold add_contact, input_error, bind, lift, gets, modify, ret, on_record, unpack2.
  rewrite Hfind. cbn beta iota.
  unfold Record.new, Name.new. rewrite (len_nonzero name Hname). cbn [rbind].
  rewrite (len_nonzero phone Hphone). cbn [negb].
  unfold AddressBook.add_record, AddressBook.find. cbn [Record.name Name.value].
  rewrite get_setitem.
  unfold Record.add_phone, Phone.new. rewrite Hinvalid. cbn [negb].
  rewrite (setitem_same _ _ _ (get_setitem _ _ _)).
  rewrite (setitem_new _ _ _ Hfind). reflexivity.
Qed.

Lemma add_contact_keeps_new_record_witness :
  add_contact ["Gus"; "12345"] sample_book
    = (Ok "Phone number must contain exactly 10 digits.",
       (sample_book ++ [("Gus", Record.mk (Name.mk "Gus") [] None None)])%list).
Proof.
  apply (add_contact_keeps_new_record sample_book "Gus" "12345" []).
  - reflexivity.
  - discriminate.
  - discriminate.
  - reflexivity.
Defined.

(** An empty phone text is not ten digits, yet [add_contact] skips the
    validation and reports success. *)
Lemma add_contact_empty_phone :
  Phone._validate "" = false
  /\ add_contact ["Gus"; ""] AddressBook.empty
     = (Ok "Contact added.", [("Gus", Record.mk (Name.mk "Gus") [] None None)]).
Proof. split; reflexivity. Qed.

End AddContactClaims.

(** ** Matching a date text *)

Lemma one_char_sound (p : ascii -> bool) s t r :
  (t, r) ∈ one_char p s -> exists a, p a = true /\ t = String a "" /\ s = String a r.
Proof.
  destruct s as [|a rest]; cbn; [intros H; inversion H|].
  destruct (p a) eqn:E; [|intros H; inversion H].
  intros H. apply list_elem_of_singleton in H. injection H as -> ->. eauto.
Qed.

Lemma append_assoc (a b c : string) : (a +:+ b) +:+ c = a +:+ (b +:+ c).
Proof.
  induction a as [|x a IH]; [reflexivity|].
  change (String x ((a +:+ b) +:+ c) = String x (a +:+ (b +:+ c))).
  rewrite IH. reflexivity.
Qed.

Lemma re_match_sound e :
  forall s t r, (t, r) ∈ re_match e s -> matches e t /\ s = t +:+ r.
Proof.
  induction e as [c | lo hi | | e1 IH1 e2 IH2 | e1 IH1 e2 IH2]; intros s t r H; cbn in H.
  - apply one_char_sound in H as (a & Ha & -> & ->).
    apply Ascii.eqb_eq in Ha as ->. split; [constructor | reflexivity].
  - apply one_char_sound in H as (a & Ha & -> & ->).
    rewrite andb_true_iff, !Z.leb_le in Ha. split; [constructor; lia | reflexivity].
  - apply one_char_sound in H as (a & Ha & -> & ->).
    split; [constructor; exact Ha | reflexivity].
  - apply list_elem_of_bind in H as ([t1 r1] & H & H1).
    apply list_elem_of_bind in H as ([t2 r2] & H & H2).
    apply list_elem_of_singleton in H. cbn in H. injection H as -> ->.
    apply IH1 in H1 as [M1 ->]. cbn in H2. apply IH2 in H2 as [M2 ->].
    split; [constructor; assumption | symmetry; apply append_assoc].
  - apply elem_of_app in H as [H | H].
    + apply IH1 in H as [M ->]. split; [apply matches_alt_l, M | reflexivity].
    + apply IH2 in H as [M ->]. split; [apply matches_alt_r, M | reflexivity].
Qed.

Ltac invert_matches :=
  repeat match goal with
  | H : matches (Lit _) _ |- _ => inversion H; subst; clear H
  | H : matches (Range _ _) _ |- _ => inversion H; subst; clear H
  | H : matches Digit _ |- _ => inversion H; subst; clear H
  | H : matches (Cat _ _) _ |- _ => inversion H; subst; clear H
  | H : matches (Alt _ _) _ |- _ => inversion H; subst; clear H
  end.

Ltac ord_values :=
  repeat match goal with
  | H : context [ord (Ascii ?b0 ?b1 ?b2 ?b3 ?b4 ?b5 ?b6 ?b7)] |- _ =>
      let v := eval vm_compute in (ord (Ascii b0 b1 b2 b3 b4 b5 b6 b7)) in
      change (ord (Ascii b0 b1 b2 b3 b4 b5 b6 b7)) with v in H
  | |- context [ord (Ascii ?b0 ?b1 ?b2 ?b3 ?b4 ?b5 ?b6 ?b7)] =>
      let v := eval vm_compute in (ord (Ascii b0 b1 b2 b3 b4 b5 b6 b7)) in
      change (ord (Ascii b0 b1 b2 b3 b4 b5 b6 b7)) with v
  end.

Lemma is_decimal_iff a : is_decimal a = true <-> 48 <= ord a <= 57.
Proof. unfold is_decimal. rewrite andb_true_iff, !Z.leb_le. reflexivity. Qed.

Ltac decimal_facts :=
  repeat match goal with
  | H : is_decimal _ = true |- _ => apply is_decimal_iff in H
  end.

Ltac solve_tests :=
  repeat match goal with
  | |- context [Z.leb ?a ?b] =>
      first [ replace (Z.leb a b) with true by (symmetry; apply Z.leb_le; lia)
            | replace (Z.leb a b) with false by (symmetry; apply Z.leb_gt; lia) ]
  | |- context [Z.eqb ?a ?b] =>
      first [ replace (Z.eqb a b) with true by (symmetry; apply Z.eqb_eq; lia)
            | replace (Z.eqb a b) with false by (symmetry; apply Z.eqb_neq; lia) ]
  | |- context [is_decimal ?a] =>
      replace (is_decimal a) with true by (symmetry; apply is_decimal_iff; lia)
  end.

Lemma matches_re_d t : matches re_d t -> day_text t = true.
Proof.
  unfold re_d. intros H. invert_matches; decimal_facts; ord_values;
    cbv beta iota delta [day_text chars list_ascii_of_string String.append is_decimal];
    ord_values; solve_tests; reflexivity.
Qed.

Lemma matches_re_m t : matches re_m t -> month_text t = true.
Proof.
  unfold re_m. intros H. invert_matches; decimal_facts; ord_values;
    cbv beta iota delta [month_text chars list_ascii_of_string String.append is_decimal];
    ord_values; solve_tests; reflexivity.
Qed.

Lemma matches_re_Y t : matches re_Y t -> year_text t = true.
Proof.
  unfold re_Y. intros H. invert_matches.
  cbv beta iota delta [year_text chars list_ascii_of_string String.append].
  repeat match goal with H : is_decimal _ = true |- _ => rewrite H; clear H end.
  reflexivity.
Qed.

Lemma matches_dot t : matches (Lit ".") t -> t = ".".
Proof. intros H. inversion H. reflexivity. Qed.

(** What the first match of the pattern looks like. *)
Lemma found_dmY_sound s d m Y rest tl :
  found_dmY s = (d, m, Y, rest) :: tl ->
  s = d +:+ "." +:+ m +:+ "." +:+ Y +:+ rest
  /\ day_text d = true /\ month_text m = true /\ year_text Y = true.
Proof.
  intros Hfound.
  assert ((d, m, Y, rest) ∈ found_dmY s) as H by (rewrite Hfound; left).
  unfold found_dmY in H.
  apply list_elem_of_bind in H as ([td rd] & H & Hd).
  apply list_elem_of_bind in H as ([t1 r1] & H & H1).
  apply list_elem_of_bind in H as ([tm rm] & H & Hm).
  apply list_elem_of_bind in H as ([t2 r2] & H & H2).
  apply list_elem_of_bind in H as ([tY rY] & H & HY).
  apply list_elem_of_singleton in H. cbn [fst snd] in *. injection H as -> -> -> ->.
  apply re_match_sound in Hd as [Md ->], H1 as [M1 ->], Hm as [Mm ->],
    H2 as [M2 ->], HY as [MY ->].
  apply matches_dot in M1 as ->, M2 as ->.
  repeat split; auto using matches_re_d, matches_re_m, matches_re_Y.
Qed.


Lemma ord_inj a b : ord a = ord b -> a = b.
Proof.
  unfold ord. intros H. apply N2Z.inj in H.
  rewrite <- (ascii_N_embedding a), <- (ascii_N_embedding b), H. reflexivity.
Qed.

Lemma decimal_cases a :
  48 <= ord a <= 57 ->
  a = "0"%char \/ a = "1"%char \/ a = "2"%char \/ a = "3"%char \/ a = "4"%char
  \/ a = "5"%char \/ a = "6"%char \/ a = "7"%char \/ a = "8"%char \/ a = "9"%char.
Proof.
  intros H.
  assert (ord a = 48 \/ ord a = 49 \/ ord a = 50 \/ ord a = 51 \/ ord a = 52
          \/ ord a = 53 \/ ord a = 54 \/ ord a = 55 \/ ord a = 56 \/ ord a = 57)
    as Hcases by lia.
  destruct Hcases as [E|[E|[E|[E|[E|[E|[E|[E|[E|E]]]]]]]]];
    [ left | right; left | do 2 right; left | do 3 right; left
    | do 4 right; left | do 5 right; left | do 6 right; left
    | do 7 right; left | do 8 right; left | do 9 right ];
    apply ord_inj; exact E.
Qed.

Ltac eval_tests :=
  repeat (cbn; cbv beta iota delta [String.append]; ord_values; solve_tests).

Ltac unfold_texts :=
  cbv beta iota delta [day_text month_text year_text two_digits chars
                       list_ascii_of_string String.append] in *.

Lemma re_d_first ds r :
  day_text ds = true -> 1 <= int ds <= 31 ->
  exists tl, re_match re_d (ds +:+ "." +:+ r) = (ds, "." +:+ r) :: tl.
Proof.
  intros Hshape Hint.
  destruct ds as [|a [|b [|c ds]]]; unfold_texts; try discriminate.
  - apply is_decimal_iff, decimal_cases in Hshape.
    repeat (destruct Hshape as [-> | Hshape]); [.. | subst a];
      unfold int, int_digits, digit_value in Hint; cbn in Hint; ord_values;
        cbn in Hint;
      try lia; unfold re_d; eval_tests; eauto.
  - apply andb_true_iff in Hshape as [Ha Hb].
    apply is_decimal_iff in Hb.
    apply orb_true_iff in Ha as [Ha | Ha].
    + apply is_decimal_iff, decimal_cases in Ha.
      repeat (destruct Ha as [-> | Ha]); [.. | subst a];
        unfold int, int_digits, digit_value in Hint; cbn in Hint; ord_values;
        cbn in Hint;
        try lia; unfold re_d, is_decimal; eval_tests; eauto.
    + apply Z.eqb_eq in Ha.
      assert (a = " "%char) as -> by (apply ord_inj; exact Ha).
      unfold int, int_digits, digit_value in Hint; cbn in Hint; ord_values;
        cbn in Hint.
      unfold re_d; eval_tests; eauto.
Qed.

Lemma re_m_first ms r :
  month_text ms = true -> 1 <= int ms <= 12 ->
  exists tl, re_match re_m (ms +:+ "." +:+ r) = (ms, "." +:+ r) :: tl.
Proof.
  intros Hshape Hint.
  destruct ms as [|a [|b [|c ms]]]; unfold_texts; try discriminate.
  - apply is_decimal_iff, decimal_cases in Hshape.
    repeat (destruct Hshape as [-> | Hshape]); [.. | subst a];
      unfold int, int_digits, digit_value in Hint; cbn in Hint; ord_values;
        cbn in Hint;
      try lia; unfold re_m; eval_tests; eauto.
  - apply andb_true_iff in Hshape as [Ha Hb].
    apply is_decimal_iff in Hb.
    apply is_decimal_iff, decimal_cases in Ha.
    repeat (destruct Ha as [-> | Ha]); [.. | subst a];
      unfold int, int_digits, digit_value in Hint; cbn in Hint; ord_values;
        cbn in Hint;
      try lia; unfold re_m, is_decimal; eval_tests; eauto.
Qed.

Lemma re_Y_first ys r :
  year_text ys = true -> re_match re_Y (ys +:+ r) = [(ys, r)].
Proof.
  intros Hshape.
  destruct ys as [|a [|b [|c [|d [|e ys]]]]]; unfold_texts; try discriminate.
  rewrite !andb_true_iff in Hshape. destruct Hshape as (((Ha & Hb) & Hc) & Hd).
  unfold re_Y. cbn. rewrite Ha. cbn. rewrite Hb. cbn. rewrite Hc. cbn. rewrite Hd.
  reflexivity.
Qed.

Lemma found_dmY_complete ds ms ys :
  day_text ds = true -> month_text ms = true -> year_text ys = true ->
  1 <= int ds <= 31 -> 1 <= int ms <= 12 ->
  exists tl, found_dmY (ds +:+ "." +:+ ms +:+ "." +:+ ys) = (ds, ms, ys, "") :: tl.
Proof.
  intros Hd Hm HY Hdv Hmv. unfold found_dmY.
  destruct (re_d_first ds (ms +:+ "." +:+ ys) Hd Hdv) as [tld ->].
  rewrite bind_cons. cbn [fst snd].
  change (re_match (Lit ".") ("." +:+ ms +:+ "." +:+ ys))
    with [(".", ms +:+ "." +:+ ys)].
  rewrite bind_singleton. cbn [fst snd].
  destruct (re_m_first ms ys Hm Hmv) as [tlm ->].
  rewrite bind_cons. cbn [fst snd].
  change (re_match (Lit ".") ("." +:+ ys)) with [(".", ys)].
  rewrite bind_singleton. cbn [fst snd].
  assert (ys = ys +:+ "") as Hys.
  { clear. induction ys as [|a ys IH]; [reflexivity|].
    change (String a ys = String a (ys +:+ "")). rewrite <- IH. reflexivity. }
  replace (re_match re_Y ys) with (re_match re_Y (ys +:+ ""))
    by (rewrite <- Hys; reflexivity).
  rewrite (re_Y_first ys "" HY).
  rewrite bind_singleton. cbn [fst snd]. eauto.
Qed.


(** ** Birthday texts *)

Section BirthdayText.
Import datetime.

Lemma append_empty (s : string) : s +:+ "" = s.
Proof.
  induction s as [|a s IH]; [reflexivity|].
  change (String a (s +:+ "") = String a s). rewrite IH. reflexivity.
Qed.

Lemma strptime_Ok_inv s x :
  strptime_dmY s = Ok x ->
  exists ds ms ys,
    s = ds +:+ "." +:+ ms +:+ "." +:+ ys
    /\ day_text ds = true /\ month_text ms = true /\ year_text ys = true
    /\ valid x /\ x = mkdate (int ys) (int ms) (int ds).
Proof.
  unfold strptime_dmY.
  destruct (found_dmY s) as [|[[[d m] Y] rest] tl] eqn:Ef; [discriminate|].
  destruct (len rest =? 0) eqn:Er; cbn [negb]; [|discriminate].
  intros Hnew. apply len_zero in Er as ->.
  apply found_dmY_sound in Ef as (-> & Hd & Hm & HY).
  apply new_Ok in Hnew as [-> Hv].
  exists d, m, Y. rewrite append_empty. auto 10.
Qed.

Lemma strptime_complete ds ms ys :
  day_text ds = true -> month_text ms = true -> year_text ys = true ->
  valid (mkdate (int ys) (int ms) (int ds)) ->
  strptime_dmY (ds +:+ "." +:+ ms +:+ "." +:+ ys)
    = Ok (mkdate (int ys) (int ms) (int ds)).
Proof.
  intros Hd Hm HY Hv.
  assert (1 <= int ds <= 31 /\ 1 <= int ms <= 12) as [Hdv Hmv].
  { destruct Hv as (_ & Hmv & Hdv). cbn [year month day] in *.
    pose proof (days_in_month_le (int ys) (int ms) Hmv). lia. }
  unfold strptime_dmY.
  destruct (found_dmY_complete ds ms ys Hd Hm HY Hdv Hmv) as [tl ->].
  cbn. apply new_valid, Hv.
Qed.

Lemma digit_char_ord a : digit_char (ord a - 48) = a.
Proof.
  unfold digit_char, ord.
  replace (48 + (Z.of_N (N_of_ascii a) - 48)) with (Z.of_N (N_of_ascii a)) by lia.
  rewrite N2Z.id. apply ascii_N_embedding.
Qed.

Lemma dec2_int t : two_digits t = true -> dec2 (int t) = t.
Proof.
  intros H. destruct t as [|a [|b [|c t]]]; unfold_texts; try discriminate.
  apply andb_true_iff in H as [Ha Hb]. apply is_decimal_iff in Ha, Hb.
  unfold int, int_digits, dec2. cbn [chars list_ascii_of_string fold_left].
  replace (ord a =? 32) with false by (symmetry; apply Z.eqb_neq; lia).
  unfold digit_value.
  replace ((0 * 10 + (ord a - 48)) * 10 + (ord b - 48))
    with ((ord a - 48) * 10 + (ord b - 48)) by lia.
  replace (((ord a - 48) * 10 + (ord b - 48)) / 10) with (ord a - 48) by dlia.
  replace (((ord a - 48) * 10 + (ord b - 48)) mod 10) with (ord b - 48) by dlia.
  rewrite !digit_char_ord. reflexivity.
Qed.

Lemma dec4_int t : year_text t = true -> dec4 (int t) = t.
Proof.
  intros H. destruct t as [|a [|b [|c [|d [|e t]]]]]; unfold_texts; try discriminate.
  rewrite !andb_true_iff in H. destruct H as (((Ha & Hb) & Hc) & Hd).
  apply is_decimal_iff in Ha, Hb, Hc, Hd.
  unfold int, int_digits, dec4. cbn [chars list_ascii_of_string fold_left].
  replace (ord a =? 32) with false by (symmetry; apply Z.eqb_neq; lia).
  unfold digit_value.
  remember (ord a - 48) as va eqn:Eva. remember (ord b - 48) as vb eqn:Evb.
  remember (ord c - 48) as vc eqn:Evc. remember (ord d - 48) as vd eqn:Evd.
  set (n := (((0 * 10 + va) * 10 + vb) * 10 + vc) * 10 + vd).
  assert (n / 1000 = va /\ n / 100 mod 10 = vb /\ n / 10 mod 10 = vc /\ n mod 10 = vd)
    as (-> & -> & -> & ->) by (subst n; dlia).
  subst va vb vc vd. rewrite !digit_char_ord. reflexivity.
Qed.

Lemma strftime_dmY_digits pads x :
  valid x -> pads = true \/ 1000 <= year x ->
  strftime_dmY pads x = dec2 (day x) +:+ "." +:+ dec2 (month x) +:+ "." +:+ dec4 (year x).
Proof.
  intros Hx Hp. destruct (valid_fields x Hx) as (Hy & Hm & Hd).
  unfold strftime_dmY.
  rewrite (fmt_Y_dec4 pads _ Hy Hp), (fmt_02d_dec2 _ Hm), (fmt_02d_dec2 _ Hd).
  reflexivity.
Qed.

End BirthdayText.

Section FieldClaims.
Import datetime.




(** Where the C library does not pad the year, a year below 1000 is
    rendered with fewer than four digits. *)
Example birthday_year_below_1000 :
  Birthday.new "01.01.0999" = Ok (Birthday.mk (mkdate 999 1 1))
  /\ Birthday.date_str false (Birthday.mk (mkdate 999 1 1)) = "01.01.999"
  /\ Birthday.date_str true (Birthday.mk (mkdate 999 1 1)) = "01.01.0999".
Proof. repeat split. Qed.

Lemma phone_validate_iff s :
  Phone._validate s = true
  <-> String.length s = 10%nat /\ forallb is_digit (chars s) = true.
Proof.
  unfold Phone._validate, isdigit, len.
  rewrite !andb_true_iff, negb_true_iff, Z.eqb_eq, Z.eqb_neq.
  intuition lia.
Qed.

(** A text of plain digits 0..9 is accepted exactly when it has ten of
    them. *)
Lemma phone_plain_digits s :
  forallb is_decimal (chars s) = true ->
  (Phone.new s = Ok (Phone.mk s) <-> String.length s = 10%nat).
Proof.
  intros Hdec.
  assert (forallb is_digit (chars s) = true) as Hdig.
  { rewrite forallb_forall in *. intros c Hc. unfold is_digit.
    rewrite (Hdec c Hc). reflexivity. }
  split.
  - intros Hnew. unfold Phone.new in Hnew.
    destruct (Phone._validate s) eqn:E; [|discriminate].
    apply phone_validate_iff in E. tauto.
  - intros Hlen. unfold Phone.new.
    rewrite (proj2 (phone_validate_iff s) (conj Hlen Hdig)). reflexivity.
Qed.

(** C4 (the code does not do this). Ten superscript twos are no decimal
    digits, yet the Phone constructor and [update_number] accept them. *)
Theorem phone_accepts_superscript_digits :
  forallb is_decimal (chars superscript_twos) = false
  /\ Phone.new superscript_twos = Ok (Phone.mk superscript_twos)
  /\ Phone.update_number superscript_twos (Phone.mk "0123456789")
     = (Ok tt, Phone.mk superscript_twos).
Proof. repeat split. Qed.

End FieldClaims.

(** ** Phones of a Record *)

Section PhoneClaims.

Lemma find_phone_absent number (ps : list Phone.t) :
  (forall ph, ph ∈ ps -> Phone.value ph <> number) ->
  Record.find_phone number ps = None.
Proof.
  induction ps as [|ph rest IH]; intros Hall; cbn; [reflexivity|].
  unfold Phone.phone_number.
  destruct (String.eqb_spec (Phone.value ph) number) as [E | _].
  - exfalso. apply (Hall ph); [left | exact E].
  - rewrite IH; [reflexivity|]. intros x Hx. apply Hall. right. exact Hx.
Qed.

(** [edit_phone] with an old number the Record does not hold returns
    False and leaves the Record as it was; [change_contact] then answers
    "Old phone not found." and leaves the book as it was. *)
Lemma edit_phone_unknown_number rec old new :
  (forall ph, ph ∈ Record.phones rec -> Phone.value ph <> old) ->
  Record.edit_phone old new rec = (Ok false, rec)
  /\ forall book name rest,
       AddressBook.find name book = Some rec ->
       change_contact (name :: old :: new :: rest) book
         = (Ok "Old phone not found.", book).
Proof.
  intros Habsent.
  assert (Record.edit_phone old new rec = (Ok false, rec)) as Hedit.
  { unfold Record.edit_phone. rewrite (find_phone_absent _ _ Habsent). reflexivity. }
  split; [exact Hedit|].
  intros book name rest Hfind.
  unfold change_contact, input_error, bind, lift, gets, on_record, unpack3.
  rewrite Hfind. cbn beta iota. rewrite Hfind, Hedit.
  rewrite (setitem_same _ _ _ Hfind). reflexivity.
Qed.

Lemma edit_phone_unknown_number_witness :
  Record.edit_phone "1111111111" "2222222222" hal = (Ok false, hal)
  /\ change_contact ["Hal"; "1111111111"; "2222222222"] [("Hal", hal)]
     = (Ok "Old phone not found.", [("Hal", hal)]).
Proof.
  assert (forall ph, ph ∈ Record.phones hal -> Phone.value ph <> "1111111111")
    as Habsent.
  { intros ph Hin. cbn in Hin. apply list_elem_of_singleton in Hin as ->.
    discriminate. }
  destruct (edit_phone_unknown_number hal "1111111111" "2222222222" Habsent)
    as [Hedit Hcmd].
  split; [exact Hedit|]. apply Hcmd. reflexivity.
Defined.

Lemma phone_plain_digits_witness :
  Phone.new "0123456789" = Ok (Phone.mk "0123456789").
Proof.
  apply (proj2 (phone_plain_digits "0123456789" eq_refl)). reflexivity.
Defined.

End PhoneClaims.

(** * Further properties of the code *)

(** ** The dictionary of the book *)

Section DictionaryMore.

Lemma get_None_keys k (data : AddressBook.t) :
  AddressBook.get k data = None <-> k ∉ AddressBook.keys data.
Proof.
  unfold AddressBook.keys.
  induction data as [|[k' v'] rest IH]; cbn.
  - split; [intros _ H; inversion H | reflexivity].
  - rewrite not_elem_of_cons.
    destruct (String.eqb_spec k' k) as [-> | Hne].
    + split; [discriminate | intros [H _]; contradiction].
    + rewrite IH. split; [intros H; split; [congruence | exact H] | tauto].
Qed.

Lemma get_Some_elem k v (data : AddressBook.t) :
  AddressBook.get k data = Some v -> (k, v) ∈ data.
Proof.
  induction data as [|[k' v'] rest IH]; cbn; [discriminate|].
  destruct (String.eqb_spec k' k) as [-> | Hne].
  - intros [= ->]. left.
  - intros H. right. apply IH, H.
Qed.

Lemma elem_get k v (data : AddressBook.t) :
  NoDup (AddressBook.keys data) -> (k, v) ∈ data -> AddressBook.get k data = Some v.
Proof.
  unfold AddressBook.keys.
  induction data as [|[k' v'] rest IH]; cbn; intros Hnd Hin; [inversion Hin|].
  apply NoDup_cons in Hnd as [Hfresh Hnd].
  apply elem_of_cons in Hin as [[= -> ->] | Hin].
  - rewrite String.eqb_refl. reflexivity.
  - destruct (String.eqb_spec k' k) as [-> | Hne]; [|apply IH; assumption].
    exfalso. apply Hfresh. apply list_elem_of_fmap. exists (k, v). split; [reflexivity | exact Hin].
Qed.

Lemma keys_setitem_present k v v0 (data : AddressBook.t) :
  AddressBook.get k data = Some v0 ->
  AddressBook.keys (AddressBook._setitem k v data) = AddressBook.keys data.
Proof.
  unfold AddressBook.keys.
  induction data as [|[k' v'] rest IH]; cbn; [discriminate|].
  destruct (String.eqb k' k); cbn; [reflexivity|].
  intros H. rewrite (IH H). reflexivity.
Qed.

Lemma elem_setitem k v (data : AddressBook.t) entry :
  entry ∈ AddressBook._setitem k v data -> entry = (k, v) \/ entry ∈ data.
Proof.
  induction data as [|[k' v'] rest IH]; cbn.
  - intros H. apply list_elem_of_singleton in H. left. exact H.
  - destruct (String.eqb_spec k' k) as [-> | Hne]; intros H;
      apply elem_of_cons in H as [-> | H].
    + left. reflexivity.
    + right. right. exact H.
    + right. left.
    + destruct (IH H) as [-> | Hin]; [left; reflexivity | right; right; exact Hin].
Qed.

Lemma NoDup_keys_setitem k v (data : AddressBook.t) :
  NoDup (AddressBook.keys data) ->
  NoDup (AddressBook.keys (AddressBook._setitem k v data)).
Proof.
  intros Hnd. destruct (AddressBook.get k data) as [v0|] eqn:E.
  - rewrite (keys_setitem_present _ _ _ _ E). exact Hnd.
  - rewrite (setitem_new _ _ _ E). unfold AddressBook.keys in *.
    rewrite fmap_app. cbn. apply NoDup_app. split; [exact Hnd|].
    split; [|apply NoDup_singleton].
    intros x Hx Hx'. apply list_elem_of_singleton in Hx' as ->.
    apply get_None_keys in E. contradiction.
Qed.

(** [add_record] and [find]: the Record is found under its name, whatever
    was stored there; every other name finds what it found before; a key
    already present keeps its place and a new one goes last; the keys
    stay distinct. *)
Theorem add_record_then_find record book :
  AddressBook.find (Name.value (Record.name record))
    (AddressBook.add_record record book) = Some record
  /\ (forall other,
        other <> Name.value (Record.name record) ->
        AddressBook.find other (AddressBook.add_record record book)
          = AddressBook.find other book)
  /\ (forall old,
        AddressBook.find (Name.value (Record.name record)) book = Some old ->
        AddressBook.keys (AddressBook.add_record record book) = AddressBook.keys book)
  /\ (AddressBook.find (Name.value (Record.name record)) book = None ->
      AddressBook.add_record record book
        = (book ++ [(Name.value (Record.name record), record)])%list)
  /\ (NoDup (AddressBook.keys book) ->
      NoDup (AddressBook.keys (AddressBook.add_record record book))).
Proof.
  unfold AddressBook.add_record, AddressBook.find.
  split; [apply get_setitem|].
  split; [intros other Hne; apply get_setitem_other; congruence|].
  split; [intros old Hold; apply (keys_setitem_present _ _ _ _ Hold)|].
  split; [apply setitem_new | apply NoDup_keys_setitem].
Qed.

Lemma setitem_appended k v v' (data : AddressBook.t) :
  AddressBook.get k data = None ->
  AddressBook._setitem k v' (data ++ [(k, v)])%list = (data ++ [(k, v')])%list.
Proof.
  induction data as [|[k0 v0] rest IH]; cbn.
  - rewrite String.eqb_refl. reflexivity.
  - destruct (String.eqb k0 k); [discriminate|]. intros H. rewrite (IH H). reflexivity.
Qed.

Lemma get_delitem_other k k' (data : AddressBook.t) :
  k <> k' -> AddressBook.get k' (AddressBook._delitem k data) = AddressBook.get k' data.
Proof.
  intros Hne. induction data as [|[k0 v0] rest IH]; cbn; [reflexivity|].
  destruct (String.eqb_spec k0 k) as [-> | Hk]; cbn.
  - destruct (String.eqb_spec k k'); [contradiction | reflexivity].
  - rewrite IH. reflexivity.
Qed.

Lemma filter_all {A} (P : A -> Prop) `{forall x, Decision (P x)} (l : list A) :
  Forall P l -> filter P l = l.
Proof.
  induction l as [|x l IH]; intros Hall; [reflexivity|].
  apply Forall_cons in Hall as [Hx Hl].
  rewrite filter_cons_True by exact Hx. rewrite (IH Hl). reflexivity.
Qed.

Lemma keys_delitem k (data : AddressBook.t) :
  NoDup (AddressBook.keys data) ->
  AddressBook.keys (AddressBook._delitem k data)
    = filter (fun key => key <> k) (AddressBook.keys data).
Proof.
  unfold AddressBook.keys.
  induction data as [|[k0 v0] rest IH]; intros Hnd; [reflexivity|].
  rewrite fmap_cons in Hnd |- *. cbn [fst AddressBook._delitem].
  apply NoDup_cons in Hnd as [Hfresh Hnd].
  destruct (String.eqb_spec k0 k) as [-> | Hk].
  - rewrite filter_cons_False by (intros H; apply H; reflexivity).
    symmetry. apply filter_all, Forall_forall.
    intros x Hx ->. contradiction.
  - rewrite filter_cons_True by exact Hk.
    rewrite fmap_cons. cbn [fst]. rewrite (IH Hnd). reflexivity.
Qed.

(** [delete]: a name that is not in the book changes nothing; for a book
    with distinct keys, the name is not found afterwards, the other keys
    keep their order and every other name finds what it found before. *)
Theorem delete_then_find name book :
  NoDup (AddressBook.keys book) ->
  AddressBook.find name (AddressBook.delete name book) = None
  /\ AddressBook.keys (AddressBook.delete name book)
     = filter (fun key => key <> name) (AddressBook.keys book)
  /\ (forall other,
        other <> name ->
        AddressBook.find other (AddressBook.delete name book)
          = AddressBook.find other book)
  /\ (AddressBook.find name book = None -> AddressBook.delete name book = book)
  /\ NoDup (AddressBook.keys (AddressBook.delete name book)).
Proof.
  intros Hnd. unfold AddressBook.delete, AddressBook.find.
  assert (AddressBook.keys (match AddressBook.get name book with
                            | Some _ => AddressBook._delitem name book
                            | None => book
                            end)
          = filter (fun key => key <> name) (AddressBook.keys book)) as Hkeys.
  { destruct (AddressBook.get name book) eqn:E; [apply keys_delitem, Hnd|].
    symmetry. apply filter_all, Forall_forall. intros x Hx ->.
    apply get_None_keys in E. contradiction. }
  split; [|split; [exact Hkeys|split; [|split]]].
  - apply get_None_keys. rewrite Hkeys. intros H.
    apply list_elem_of_filter in H as [H _]. apply H. reflexivity.
  - intros other Hne. destruct (AddressBook.get name book);
      [apply get_delitem_other; congruence | reflexivity].
  - intros ->. reflexivity.
  - rewrite Hkeys. apply NoDup_filter, Hnd.
Qed.

Lemma delete_then_find_witness :
  AddressBook.find "Bob" (AddressBook.delete "Bob" sample_book) = None
  /\ AddressBook.keys (AddressBook.delete "Bob" sample_book)
     = ["Ann"; "Dan"; "Eve"; "Fay"]
  /\ AddressBook.find "Dan" (AddressBook.delete "Bob" sample_book) = Some dan.
Proof.
  assert (NoDup (AddressBook.keys sample_book)) as Hnd
    by (apply (bool_decide_unpack _); vm_compute; exact I).
  destruct (delete_then_find "Bob" sample_book Hnd) as (Hgone & Hkeys & Hother & _).
  split; [exact Hgone|]. split; [reflexivity|]. reflexivity.
Defined.

End DictionaryMore.

(** ** What the commands keep and what they never do *)

Section CommandInvariants.
Import datetime.

Lemma ensures_weaken {A} (m : M A) (Q R : A -> Prop) :
  ensures m Q -> (forall a, Q a -> R a) -> ensures m R.
Proof.
  intros Hm HQR book Hwf. destruct (Hm book Hwf) as [H1 H2].
  split; [exact H1 | intros a Ha; apply HQR, H2, Ha].
Qed.

Lemma ensures_ret {A} (a : A) (Q : A -> Prop) : Q a -> ensures (ret a) Q.
Proof. intros HQ book Hwf. cbn. split; [exact Hwf | intros ? [= <-]; exact HQ]. Qed.

Lemma ensures_raise {A} e (Q : A -> Prop) : ensures (raise e) Q.
Proof. intros book Hwf. cbn. split; [exact Hwf | discriminate]. Qed.

Lemma ensures_lift {A} (r : result A) (Q : A -> Prop) :
  (forall a, r = Ok a -> Q a) -> ensures (lift r) Q.
Proof. intros HQ book Hwf. cbn. split; [exact Hwf | exact HQ]. Qed.

Lemma ensures_gets {A} (f : AddressBook.t -> A) :
  ensures (gets f) (fun _ => True).
Proof. intros book Hwf. cbn. split; [exact Hwf | trivial]. Qed.

Lemma ensures_bind {A B} (m : M A) (k : A -> M B) (Q : A -> Prop) (R : B -> Prop) :
  ensures m Q -> (forall a, Q a -> ensures (k a) R) -> ensures (bind m k) R.
Proof.
  intros Hm Hk book Hwf. destruct (Hm book Hwf) as [H1 H2]. unfold bind.
  destruct (m book) as [[a|e] book']; cbn in *.
  - apply (Hk a (H2 a eq_refl) book' H1).
  - split; [exact H1 | discriminate].
Qed.

Lemma wf_setitem k v book :
  wf_book book -> wf_record k v -> wf_book (AddressBook._setitem k v book).
Proof.
  intros [Hnd Hall] Hv. split; [apply NoDup_keys_setitem, Hnd|].
  apply Forall_forall. intros entry Hin.
  apply elem_setitem in Hin as [-> | Hin]; [exact Hv|].
  rewrite Forall_forall in Hall. apply Hall, Hin.
Qed.

Lemma wf_find name r book :
  wf_book book -> AddressBook.find name book = Some r -> wf_record name r.
Proof.
  intros [_ Hall] Hfind. apply get_Some_elem in Hfind.
  rewrite Forall_forall in Hall. apply (Hall _ Hfind).
Qed.

Lemma ensures_modify_add_record name record :
  wf_record name record ->
  ensures (modify (AddressBook.add_record record)) (fun _ => True).
Proof.
  intros Hrec book Hwf. cbn. split; [|trivial].
  unfold AddressBook.add_record. destruct Hrec as (Hname & Hrest).
  rewrite Hname. apply wf_setitem; [exact Hwf|]. split; assumption.
Qed.

Lemma ensures_on_record {A} name (method : Record.t -> result A * Record.t) :
  (forall r, wf_record name r -> wf_record name (method r).2) ->
  ensures (on_record name method) (fun _ => True).
Proof.
  intros Hmethod book Hwf. unfold on_record.
  destruct (AddressBook.find name book) as [r|] eqn:Efind; cbn; [|auto].
  specialize (Hmethod r (wf_find _ _ _ Hwf Efind)).
  destruct (method r) as [outcome r']. cbn in *.
  split; [apply wf_setitem; assumption | trivial].
Qed.

Lemma ensures_input_error func args :
  ensures (func args) (fun _ => True) -> ensures (input_error func args) (fun _ => True).
Proof.
  intros Hf book Hwf. destruct (Hf book Hwf) as [H _]. unfold input_error.
  split; [|trivial].
  destruct (func args book) as [[msg|[]] book']; exact H.
Qed.

Lemma record_new_wf name record :
  Record.new name = Ok record -> wf_record name record.
Proof.
  unfold Record.new, Name.new. destruct (len name =? 0) eqn:E; [discriminate|].
  cbn. intros [= <-].
  split; [reflexivity|]. split; [intros ->; discriminate|].
  split; [constructor|]. cbn. discriminate.
Qed.

Lemma wf_with_phones name r ps :
  wf_record name r ->
  Forall (fun ph => Phone._validate (Phone.value ph) = true) ps ->
  wf_record name (Record.with_phones r ps).
Proof.
  intros (H1 & H2 & H3 & H4) Hps.
  split; [exact H1|]. split; [exact H2|]. split; [exact Hps | exact H4].
Qed.

Lemma wf_with_birthday name r b :
  wf_record name r -> valid (Birthday.value b) ->
  wf_record name (Record.with_birthday r (Some b)).
Proof.
  intros (H1 & H2 & H3 & H4) Hb.
  split; [exact H1|]. split; [exact H2|]. split; [exact H3|].
  cbn. intros b' [= <-]. exact Hb.
Qed.

Lemma add_phone_wf name phone r :
  wf_record name r -> wf_record name (Record.add_phone phone r).2.
Proof.
  intros Hr. unfold Record.add_phone, Phone.new.
  destruct (Phone._validate phone) eqn:E; cbn; [|exact Hr].
  apply wf_with_phones; [exact Hr|].
  apply Forall_app. split; [apply Hr|]. constructor; [exact E | constructor].
Qed.

Lemma edit_phone_wf name old new r :
  wf_record name r -> wf_record name (Record.edit_phone old new r).2.
Proof.
  intros Hr. unfold Record.edit_phone.
  destruct (Record.find_phone old (Record.phones r)) as [i|]; [|exact Hr].
  destruct (Record.phones r !! i) as [ph|] eqn:Ei; [|exact Hr].
  unfold Phone.update_number.
  destruct (Phone._validate new) eqn:E; cbn; [|exact Hr].
  apply wf_with_phones; [exact Hr|]. apply Forall_insert; [apply Hr | exact E].
Qed.

Lemma remove_phone_wf name number r :
  wf_record name r -> wf_record name (Record.remove_phone number r).2.
Proof.
  intros Hr. unfold Record.remove_phone.
  destruct (Record.find_phone number (Record.phones r)) as [i|]; [|exact Hr].
  cbn. apply wf_with_phones; [exact Hr|]. apply Forall_delete, Hr.
Qed.

Lemma birthday_new_valid s b : Birthday.new s = Ok b -> valid (Birthday.value b).
Proof.
  unfold Birthday.new. destruct (strptime_dmY s) as [x|e] eqn:E.
  - intros [= <-]. apply strptime_Ok_inv in E as (? & ? & ? & _ & _ & _ & _ & Hv & _).
    exact Hv.
  - destruct e; discriminate.
Qed.

Lemma add_birthday_wf name s r :
  wf_record name r -> wf_record name (Record.add_birthday s r).2.
Proof.
  intros Hr. unfold Record.add_birthday.
  destruct (Record.birthday r) as [b0|] eqn:Eb; [exact Hr|].
  destruct (Birthday.new s) as [b|e] eqn:En; cbn; [|exact Hr].
  apply wf_with_birthday; [exact Hr | apply (birthday_new_valid _ _ En)].
Qed.

Lemma with_addresses_wf name a r :
  wf_record name r -> wf_record name (Record.with_addresses r a).
Proof. intros H. exact H. Qed.

Lemma ensures_create name {B} (k : Record.t -> unit -> M B) (R : B -> Prop) :
  (forall record, wf_record name record -> ensures (k record tt) R) ->
  ensures (bind (lift (Record.new name))
             (fun record => bind (modify (AddressBook.add_record record)) (k record)))
          R.
Proof.
  intros Hk.
  apply (ensures_bind _ _ (wf_record name)); [apply ensures_lift, record_new_wf|].
  intros record Hrec.
  apply (ensures_bind _ _ (fun _ => True));
    [apply (ensures_modify_add_record name), Hrec|].
  intros [] _. apply Hk, Hrec.
Qed.

Ltac ensures_steps :=
  repeat first
    [ apply ensures_input_error
    | apply ensures_ret; solve [trivial]
    | apply ensures_raise
    | apply ensures_gets
    | apply ensures_lift; solve [trivial]
    | apply ensures_on_record; intros;
      solve [auto using add_phone_wf, edit_phone_wf, add_birthday_wf,
                        with_addresses_wf]
    | apply ensures_create; intros ? ?
    | apply (ensures_bind _ _ (fun _ => True)); [ | intros ? _ ]
    | match goal with
      | |- ensures (match ?x with _ => _ end) _ => destruct x
      end ].

Lemma add_contact_ensures args : ensures (add_contact args) (fun _ => True).
Proof. unfold add_contact. ensures_steps. Qed.

Lemma change_contact_ensures args : ensures (change_contact args) (fun _ => True).
Proof. unfold change_contact. ensures_steps. Qed.

Lemma add_birthday_ensures args : ensures (add_birthday args) (fun _ => True).
Proof. unfold add_birthday. ensures_steps. Qed.

Lemma add_address_ensures args : ensures (add_address args) (fun _ => True).
Proof. unfold add_address. ensures_steps. Qed.

Lemma change_address_ensures args : ensures (change_address args) (fun _ => True).
Proof. unfold change_address. ensures_steps. Qed.

Lemma remove_address_ensures args : ensures (remove_address args) (fun _ => True).
Proof. unfold remove_address. ensures_steps. Qed.

Lemma create_birthday_ensures name s : ensures (create_birthday name s) (fun _ => True).
Proof. unfold create_birthday. ensures_steps. Qed.

Lemma create_birthdays_loop_ensures l :
  ensures (create_birthdays_loop l) (fun _ => True).
Proof.
  induction l as [|[name s] rest IH]; cbn [create_birthdays_loop].
  - apply ensures_ret. trivial.
  - apply (ensures_bind _ _ (fun _ => True)); [apply create_birthday_ensures|].
    intros _ _. exact IH.
Qed.

Lemma wf_book_empty : wf_book AddressBook.empty.
Proof. split; [apply NoDup_nil; trivial | constructor]. Qed.

(** The commands that change the book, and the seed script, keep it well
    formed, whatever their arguments are: the keys stay distinct, every
    Record stays under its own, non-empty name, every stored phone passes
    the Phone validation and every stored Birthday is a calendar date. A
    new book is well formed. *)
Theorem commands_keep_book_well_formed args book :
  wf_book book ->
  wf_book (add_contact args book).2
  /\ wf_book (change_contact args book).2
  /\ wf_book (add_birthday args book).2
  /\ wf_book (add_address args book).2
  /\ wf_book (change_address args book).2
  /\ wf_book (remove_address args book).2
  /\ wf_book (create_birthdays book).2
  /\ wf_book AddressBook.empty.
Proof.
  intros Hwf.
  repeat split;
    try apply (add_contact_ensures args book Hwf);
    try apply (change_contact_ensures args book Hwf);
    try apply (add_birthday_ensures args book Hwf);
    try apply (add_address_ensures args book Hwf);
    try apply (change_address_ensures args book Hwf);
    try apply (remove_address_ensures args book Hwf);
    try apply (create_birthdays_loop_ensures seed_birthdays book Hwf);
    try apply wf_book_empty.
Qed.

Lemma sample_book_wf : wf_book sample_book.
Proof.
  split.
  - apply (bool_decide_unpack _). vm_compute. exact I.
  - unfold sample_book.
    repeat (apply Forall_cons; split); try (apply Forall_nil_2).
    all: split; [reflexivity|]; split; [discriminate|]; split; [apply Forall_nil_2|].
    all: cbn; intros b Hb; try discriminate Hb.
    all: injection Hb as <-; unfold datetime.valid; cbn; lia.
Qed.

Lemma commands_keep_book_well_formed_witness :
  wf_book (add_contact ["Zoe"; "0123456789"] sample_book).2
  /\ wf_book (change_contact ["Zoe"; "0123456789"] sample_book).2
  /\ wf_book (add_birthday ["Zoe"; "0123456789"] sample_book).2
  /\ wf_book (add_address ["Zoe"; "0123456789"] sample_book).2
  /\ wf_book (change_address ["Zoe"; "0123456789"] sample_book).2
  /\ wf_book (remove_address ["Zoe"; "0123456789"] sample_book).2
  /\ wf_book (create_birthdays sample_book).2
  /\ wf_book AddressBook.empty.
Proof.
  apply (commands_keep_book_well_formed ["Zoe"; "0123456789"] sample_book sample_book_wf).
Defined.

End CommandInvariants.

Section CommandsNeverRaise.

Lemma rc_ret {A} (a : A) : raises_catchable (ret a).
Proof. intros book e book' H. discriminate H. Qed.

Lemma rc_raise {A} e : catchable e -> raises_catchable (@raise A e).
Proof. intros He book e' book' [= <- _]. exact He. Qed.

Lemma rc_lift {A} (r : result A) :
  (forall e, r = Raise e -> catchable e) -> raises_catchable (lift r).
Proof. intros Hr book e book' [= H _]. apply Hr, H. Qed.

Lemma rc_gets {A} (f : AddressBook.t -> A) : raises_catchable (gets f).
Proof. intros book e book' H. discriminate H. Qed.

Lemma rc_modify f : raises_catchable (modify f).
Proof. intros book e book' H. discriminate H. Qed.

Lemma rc_bind {A B} (m : M A) (k : A -> M B) :
  raises_catchable m -> (forall a, raises_catchable (k a)) ->
  raises_catchable (bind m k).
Proof.
  intros Hm Hk book e book'. unfold bind.
  destruct (m book) as [[a|e0] book0] eqn:Em.
  - apply Hk.
  - intros [= <- _]. apply (Hm _ _ _ Em).
Qed.

Lemma rc_on_record {A} name (method : Record.t -> result A * Record.t) :
  (forall r e, (method r).1 = Raise e -> catchable e) ->
  raises_catchable (on_record name method).
Proof.
  intros Hmethod book e book'. unfold on_record.
  destruct (AddressBook.find name book) as [r|]; [|intros [= <- _]; exact I].
  specialize (Hmethod r). destruct (method r) as [outcome r']. cbn in *.
  intros [= -> _]. apply Hmethod. reflexivity.
Qed.

Lemma unpack2_catchable args e : unpack2 args = Raise e -> catchable e.
Proof. destruct args as [|a [|b rest]]; cbn; intros [= <-]; exact I. Qed.

Lemma unpack3_catchable args e : unpack3 args = Raise e -> catchable e.
Proof. destruct args as [|a [|b [|c rest]]]; cbn; intros [= <-]; exact I. Qed.

Lemma first_arg_catchable args e : first_arg args = Raise e -> catchable e.
Proof. destruct args; cbn; intros [= <-]; exact I. Qed.

Lemma record_new_catchable name e : Record.new name = Raise e -> catchable e.
Proof.
  unfold Record.new, Name.new. destruct (len name =? 0); cbn; intros [= <-]. exact I.
Qed.

Lemma add_phone_catchable phone r e :
  (Record.add_phone phone r).1 = Raise e -> catchable e.
Proof.
  unfold Record.add_phone, Phone.new.
  destruct (Phone._validate phone); cbn; intros [= <-]. exact I.
Qed.

Lemma edit_phone_catchable old new r e :
  (Record.edit_phone old new r).1 = Raise e -> catchable e.
Proof.
  unfold Record.edit_phone, Phone.update_number.
  destruct (Record.find_phone old (Record.phones r)) as [i|]; [|discriminate].
  destruct (Record.phones r !! i); [|discriminate].
  destruct (Phone._validate new); cbn; intros [= <-]. exact I.
Qed.

Lemma add_birthday_catchable s r e :
  (Record.add_birthday s r).1 = Raise e -> catchable e.
Proof.
  unfold Record.add_birthday.
  destruct (Record.birthday r); cbn; [intros [= <-]; exact I|].
  destruct (birthday_new_cases s) as [[b ->] | ->]; cbn; intros [= <-]. exact I.
Qed.

Ltac rc_steps :=
  repeat first
    [ apply rc_ret
    | apply rc_raise; exact I
    | apply rc_gets
    | apply rc_modify
    | progress cbv zeta
    | apply rc_lift; intros;
      solve [eauto using unpack2_catchable, unpack3_catchable, first_arg_catchable,
                         record_new_catchable]
    | apply rc_on_record; cbn; intros;
      solve [eauto using add_phone_catchable, edit_phone_catchable,
                         add_birthday_catchable | discriminate]
    | apply rc_bind; [ | intros ? ]
    | match goal with
      | |- raises_catchable (match ?x with _ => _ end) => destruct x
      end ].

Lemma input_error_answers func args book :
  raises_catchable (func args) ->
  exists msg, (input_error func args book).1 = Ok msg.
Proof.
  intros Hrc. unfold input_error.
  destruct (func args book) as [[msg|e] book'] eqn:E; cbn; [eauto|].
  pose proof (Hrc _ _ _ E) as He. destruct e; cbn in He; try contradiction; eauto.
Qed.

(** The decorated commands never raise: for all arguments and every
    book, each of them answers with a text. *)
Theorem commands_always_answer args book :
  (exists msg, (add_contact args book).1 = Ok msg)
  /\ (exists msg, (change_contact args book).1 = Ok msg)
  /\ (exists msg, (show_phone args book).1 = Ok msg)
  /\ (exists msg, (add_birthday args book).1 = Ok msg)
  /\ (forall pads, exists msg, (show_birthday pads args book).1 = Ok msg)
  /\ (exists msg, (add_address args book).1 = Ok msg)
  /\ (exists msg, (change_address args book).1 = Ok msg)
  /\ (exists msg, (show_address args book).1 = Ok msg)
  /\ (exists msg, (remove_address args book).1 = Ok msg).
Proof.
  repeat split; try intros pads; apply input_error_answers; rc_steps.
Qed.

Lemma main_handlers_answer pads args book :
  (exists msg, (add_contact args book).1 = Ok msg)
  /\ (exists msg, (change_contact args book).1 = Ok msg)
  /\ (exists msg, (show_phone args book).1 = Ok msg)
  /\ (exists msg, (add_birthday args book).1 = Ok msg)
  /\ (exists msg, (show_birthday pads args book).1 = Ok msg).
Proof.
  repeat split; apply input_error_answers; rc_steps.
Qed.

End CommandsNeverRaise.

(** ** Arguments that are missing, contacts that are unknown *)

Section CommandEdges.

(** With fewer arguments than a command unpacks, the command answers
    with the text of the unpacking error and changes nothing: the usage
    message is only given by the three commands that read [args[0]]. *)
Theorem commands_with_too_few_arguments book :
  Forall (fun command : list string -> M string =>
            command [] book
              = (Ok "not enough values to unpack (expected at least 2, got 0)", book)
            /\ forall a,
                 command [a] book
                   = (Ok "not enough values to unpack (expected at least 2, got 1)",
                      book))
         [add_contact; add_birthday; add_address; remove_address]
  /\ Forall (fun command : list string -> M string =>
               command [] book
                 = (Ok "not enough values to unpack (expected at least 3, got 0)", book)
               /\ (forall a,
                     command [a] book
                       = (Ok "not enough values to unpack (expected at least 3, got 1)",
                          book))
               /\ forall a b,
                    command [a; b] book
                      = (Ok "not enough values to unpack (expected at least 3, got 2)",
                         book))
            [change_contact; change_address]
  /\ Forall (fun command : list string -> M string =>
               command [] book
                 = (Ok "Enter the command followed by necessary arguments.", book))
            [show_phone; show_birthday true; show_birthday false; show_address].
Proof.
  repeat first [ split | constructor | intro ]; reflexivity.
Qed.

(** For a name that is not in the book, every command but [add_contact]
    answers "Contact not found." and changes nothing. *)
Theorem commands_on_unknown_contact book name :
  AddressBook.find name book = None ->
  (forall old new rest,
     change_contact (name :: old :: new :: rest) book = (Ok "Contact not found.", book))
  /\ (forall rest, show_phone (name :: rest) book = (Ok "Contact not found.", book))
  /\ (forall s rest,
        add_birthday (name :: s :: rest) book = (Ok "Contact not found.", book))
  /\ (forall pads rest,
        show_birthday pads (name :: rest) book = (Ok "Contact not found.", book))
  /\ (forall a rest,
        add_address (name :: a :: rest) book = (Ok "Contact not found.", book))
  /\ (forall old new rest,
        change_address (name :: old :: new :: rest) book
          = (Ok "Contact not found.", book))
  /\ (forall rest, show_address (name :: rest) book = (Ok "Contact not found.", book))
  /\ (forall a rest,
        remove_address (name :: a :: rest) book = (Ok "Contact not found.", book)).
Proof.
  intros Hfind.
  repeat split; intros;
    unfold change_contact, show_phone, add_birthday, show_birthday, add_address,
      change_address, show_address, remove_address, input_error, bind, lift,
      gets, raise, unpack2, unpack3, first_arg;
    rewrite Hfind; reflexivity.
Qed.

Lemma commands_on_unknown_contact_witness :
  show_phone ["Zoe"] sample_book = (Ok "Contact not found.", sample_book)
  /\ add_birthday ["Zoe"; "01.01.2000"] sample_book
     = (Ok "Contact not found.", sample_book).
Proof.
  destruct (commands_on_unknown_contact sample_book "Zoe" eq_refl)
    as (_ & Hphone & Hbirthday & _).
  split; [apply Hphone | apply Hbirthday].
Defined.

End CommandEdges.

(** ** Phones: adding, changing, removing, showing *)

Section PhoneCommands.

Lemma find_phone_first number before ph after :
  Phone.value ph = number ->
  (forall p, p ∈ before -> Phone.value p <> number) ->
  Record.find_phone number (before ++ ph :: after)%list = Some (length before).
Proof.
  intros Hph. induction before as [|p before IH]; intros Hbefore; cbn.
  - unfold Phone.phone_number. rewrite Hph, String.eqb_refl. reflexivity.
  - unfold Phone.phone_number.
    destruct (String.eqb_spec (Phone.value p) number) as [E | _].
    + exfalso. apply (Hbefore p); [left | exact E].
    + rewrite IH; [reflexivity|]. intros q Hq. apply Hbefore. right. exact Hq.
Qed.

Lemma insert_middle {A} (l1 l2 : list A) x y :
  <[length l1 := y]> (l1 ++ x :: l2)%list = (l1 ++ y :: l2)%list.
Proof.
  replace (length l1) with (length l1 + 0)%nat by lia.
  rewrite insert_app_r. reflexivity.
Qed.

Lemma concat_last_nonempty sep (l : list string) x :
  x <> "" -> String.concat sep (l ++ [x])%list <> "".
Proof.
  intros Hx. induction l as [|a l IH]; cbn; [exact Hx|].
  destruct (l ++ [x])%list as [|b l'] eqn:E.
  - destruct l; discriminate.
  - intros H. destruct a; cbn in H; [|discriminate].
    destruct sep; cbn in H; [|discriminate]. apply IH. exact H.
Qed.

Lemma or_text_nonempty text default : text <> "" -> or_text text default = text.
Proof. intros H. unfold or_text. rewrite (len_nonzero _ H). reflexivity. Qed.

Lemma validate_nonempty phone : Phone._validate phone = true -> phone <> "".
Proof. intros H ->. discriminate H. Qed.

Lemma find_appended name v (book : AddressBook.t) :
  AddressBook.find name book = None ->
  AddressBook.find name (book ++ [(name, v)])%list = Some v.
Proof.
  intros Hfind. unfold AddressBook.find.
  rewrite <- (setitem_new _ _ _ Hfind). apply get_setitem.
Qed.

Lemma find_appended_other name other v (book : AddressBook.t) :
  AddressBook.find name book = None -> other <> name ->
  AddressBook.find other (book ++ [(name, v)])%list = AddressBook.find other book.
Proof.
  intros Hfind Hne. unfold AddressBook.find.
  rewrite <- (setitem_new _ _ _ Hfind). apply get_setitem_other. congruence.
Qed.

Lemma add_contact_new book name phone rest :
  Phone._validate phone = true ->
  AddressBook.find name book = None -> name <> "" ->
  add_contact (name :: phone :: rest) book
    = (Ok "Contact added.",
       (book ++ [(name, Record.mk (Name.mk name) [Phone.mk phone] None None)])%list).
Proof.
  intros Hvalid Hfind Hname. pose proof (validate_nonempty _ Hvalid) as Hphone.
  unfold add_contact, input_error, bind, lift, gets, modify, ret, on_record, unpack2.
  rewrite Hfind. cbn beta iota.
  unfold Record.new, Name.new. rewrite (len_nonzero name Hname). cbn [rbind].
  rewrite (len_nonzero phone Hphone). cbn [negb].
  unfold AddressBook.add_record, AddressBook.find. cbn [Record.name Name.value].
  rewrite get_setitem.
  unfold Record.add_phone, Phone.new. rewrite Hvalid. cbn [negb].
  rewrite (setitem_new _ _ _ Hfind).
  apply f_equal. apply (setitem_appended _ _ _ _ Hfind).
Qed.

Lemma add_contact_existing book name phone rest r :
  Phone._validate phone = true ->
  AddressBook.find name book = Some r ->
  add_contact (name :: phone :: rest) book
    = (Ok "Contact updated.",
       AddressBook._setitem name
         (Record.with_phones r (Record.phones r ++ [Phone.mk phone])%list) book).
Proof.
  intros Hvalid Hfind. pose proof (validate_nonempty _ Hvalid) as Hphone.
  unfold add_contact, input_error, bind, lift, gets, modify, ret, on_record, unpack2.
  rewrite Hfind. cbn beta iota.
  rewrite (len_nonzero phone Hphone). cbn [negb]. rewrite Hfind.
  unfold Record.add_phone, Phone.new. rewrite Hvalid. reflexivity.
Qed.

Lemma show_phone_found book name rest r :
  AddressBook.find name book = Some r ->
  show_phone (name :: rest) book
    = (Ok (or_text (String.concat "; " (Phone.phone_number <$> Record.phones r))
                   "No phones."), book).
Proof.
  intros Hfind. unfold show_phone, input_error, bind, lift, gets, ret, first_arg.
  rewrite Hfind. reflexivity.
Qed.

(** [add_contact] with a phone that passes the validation. A name that
    is not in the book (and not empty) is added last, with that one phone,
    and the answer is "Contact added.". A name that is in the book keeps
    its place and its Record, the phone is appended to its phones (also
    when the Record holds that number already), every other name finds
    what it found before, and the answer is "Contact updated.". *)
Theorem add_contact_with_valid_phone book name phone rest :
  Phone._validate phone = true ->
  (AddressBook.find name book = None -> name <> "" ->
   add_contact (name :: phone :: rest) book
     = (Ok "Contact added.",
        (book ++ [(name, Record.mk (Name.mk name) [Phone.mk phone] None None)])%list))
  /\ (forall r,
        AddressBook.find name book = Some r ->
        exists book',
          add_contact (name :: phone :: rest) book = (Ok "Contact updated.", book')
          /\ AddressBook.find name book'
             = Some (Record.with_phones r (Record.phones r ++ [Phone.mk phone])%list)
          /\ AddressBook.keys book' = AddressBook.keys book
          /\ forall other,
               other <> name ->
               AddressBook.find other book' = AddressBook.find other book).
Proof.
  intros Hvalid. split.
  - apply add_contact_new, Hvalid.
  - intros r Hfind.
    exists (AddressBook._setitem name
              (Record.with_phones r (Record.phones r ++ [Phone.mk phone])%list) book).
    split; [|split; [apply get_setitem|split]].
    + apply add_contact_existing; assumption.
    + apply (keys_setitem_present _ _ _ _ Hfind).
    + intros other Hne. apply get_setitem_other. congruence.
Qed.

Lemma add_contact_with_valid_phone_witness :
  add_contact ["Zoe"; "0123456789"] sample_book
    = (Ok "Contact added.",
       (sample_book
        ++ [("Zoe", Record.mk (Name.mk "Zoe") [Phone.mk "0123456789"] None None)])%list).
Proof.
  apply (add_contact_with_valid_phone sample_book "Zoe" "0123456789" [] eq_refl).
  - reflexivity.
  - discriminate.
Defined.

(** What [show_phone] answers right after [add_contact] has taken a
    valid phone for a name: the numbers the contact had before, in their
    order, and the new number last, joined by "; ". *)
Theorem show_phone_after_add_contact book name phone :
  Phone._validate phone = true -> name <> "" ->
  exists msg book',
    add_contact [name; phone] book = (Ok msg, book')
    /\ show_phone [name] book'
       = (Ok (String.concat "; "
                (match AddressBook.find name book with
                 | Some r => Phone.phone_number <$> Record.phones r
                 | None => []
                 end ++ [phone])%list),
          book').
Proof.
  intros Hvalid Hname. pose proof (validate_nonempty _ Hvalid) as Hphone.
  destruct (AddressBook.find name book) as [r|] eqn:Hfind.
  - eexists _, _. split; [apply (add_contact_existing _ _ _ _ _ Hvalid Hfind)|].
    rewrite (show_phone_found _ _ _ _ (get_setitem _ _ _)).
    cbn [Record.phones Record.with_phones]. rewrite fmap_app. cbn [fmap list_fmap].
    rewrite or_text_nonempty; [reflexivity|].
    apply concat_last_nonempty, Hphone.
  - eexists _, _. split; [apply (add_contact_new _ _ _ _ Hvalid Hfind Hname)|].
    rewrite (show_phone_found _ _ _ _ (find_appended _ _ _ Hfind)).
    cbn [Record.phones fmap list_fmap Phone.phone_number Phone.value app String.concat].
    rewrite (or_text_nonempty _ _ Hphone). reflexivity.
Qed.

Lemma show_phone_after_add_contact_witness :
  exists msg book',
    add_contact ["Ida"; "5555555555"] [("Ida", ida)] = (Ok msg, book')
    /\ show_phone ["Ida"] book'
       = (Ok "0123456789; 0987654321; 0123456789; 5555555555", book').
Proof.
  apply (show_phone_after_add_contact [("Ida", ida)] "Ida" "5555555555" eq_refl).
  discriminate.
Defined.

(** [change_contact] for a contact that holds the old number changes
    its first occurrence only. With a new number that passes the
    validation the phone at that place carries the new number, the other
    phones and the other contacts are as before, and the answer is "Phone
    updated."; with any other new number the answer is the validation
    message and the book is as before. *)
Theorem change_contact_first_occurrence book name r old new rest before ph after :
  AddressBook.find name book = Some r ->
  Record.phones r = (before ++ ph :: after)%list ->
  Phone.value ph = old ->
  (forall p, p ∈ before -> Phone.value p <> old) ->
  (Phone._validate new = true ->
   exists book',
     change_contact (name :: old :: new :: rest) book = (Ok "Phone updated.", book')
     /\ AddressBook.find name book'
        = Some (Record.with_phones r (before ++ Phone.mk new :: after)%list)
     /\ AddressBook.keys book' = AddressBook.keys book
     /\ forall other,
          other <> name -> AddressBook.find other book' = AddressBook.find other book)
  /\ (Phone._validate new = false ->
      change_contact (name :: old :: new :: rest) book
        = (Ok "Phone number must contain exactly 10 digits.", book)).
Proof.
  intros Hfind Hphones Hph Hbefore.
  pose proof (find_phone_first old before ph after Hph Hbefore) as Hpos.
  split; intros Hvalid.
  - exists (AddressBook._setitem name
              (Record.with_phones r (before ++ Phone.mk new :: after)%list) book).
    split; [|split; [apply get_setitem|split]].
    + unfold change_contact, input_error, bind, lift, gets, on_record, unpack3.
      rewrite Hfind. cbn beta iota. rewrite Hfind.
      unfold Record.edit_phone. rewrite Hphones, Hpos, list_lookup_middle by reflexivity.
      unfold Phone.update_number. rewrite Hvalid. cbn [negb].
      rewrite insert_middle. reflexivity.
    + apply (keys_setitem_present _ _ _ _ Hfind).
    + intros other Hne. apply get_setitem_other. congruence.
  - unfold change_contact, input_error, bind, lift, gets, on_record, unpack3.
    rewrite Hfind. cbn beta iota. rewrite Hfind.
    unfold Record.edit_phone. rewrite Hphones, Hpos, list_lookup_middle by reflexivity.
    unfold Phone.update_number. rewrite Hvalid. cbn [negb].
    rewrite (setitem_same _ _ _ Hfind). reflexivity.
Qed.

Lemma change_contact_first_occurrence_witness :
  (exists book',
     change_contact ["Ida"; "0123456789"; "5555555555"] [("Ida", ida)]
       = (Ok "Phone updated.", book')
     /\ AddressBook.find "Ida" book'
        = Some (Record.with_phones ida
                  [Phone.mk "5555555555"; Phone.mk "0987654321"; Phone.mk "0123456789"]))
  /\ change_contact ["Ida"; "0123456789"; "555"] [("Ida", ida)]
     = (Ok "Phone number must contain exactly 10 digits.", [("Ida", ida)]).
Proof.
  assert (forall p : Phone.t, p ∈ @nil Phone.t -> Phone.value p <> "0123456789")
    as Hnone by (intros p Hin; inversion Hin).
  split.
  - destruct (change_contact_first_occurrence [("Ida", ida)] "Ida" ida "0123456789"
                "5555555555" [] [] (Phone.mk "0123456789")
                [Phone.mk "0987654321"; Phone.mk "0123456789"]
                eq_refl eq_refl eq_refl Hnone) as [Hok _].
    destruct (Hok eq_refl) as (book' & Hcmd & Hfound & _).
    exists book'. split; [exact Hcmd | exact Hfound].
  - apply (change_contact_first_occurrence [("Ida", ida)] "Ida" ida "0123456789"
             "555" [] [] (Phone.mk "0123456789")
             [Phone.mk "0987654321"; Phone.mk "0123456789"]
             eq_refl eq_refl eq_refl Hnone).
    reflexivity.
Defined.

(** [Record.remove_phone] takes out the first phone with the number and
    no other: a later phone with the same number stays. *)
Theorem remove_phone_first_occurrence r number before ph after :
  Record.phones r = (before ++ ph :: after)%list ->
  Phone.value ph = number ->
  (forall p, p ∈ before -> Phone.value p <> number) ->
  Record.remove_phone number r = (Ok tt, Record.with_phones r (before ++ after)%list).
Proof.
  intros Hphones Hph Hbefore. unfold Record.remove_phone.
  rewrite Hphones, (find_phone_first number before ph after Hph Hbefore).
  rewrite delete_middle. reflexivity.
Qed.

Lemma remove_phone_first_occurrence_witness :
  Record.remove_phone "0123456789" ida
    = (Ok tt, Record.with_phones ida [Phone.mk "0987654321"; Phone.mk "0123456789"]).
Proof.
  apply (remove_phone_first_occurrence ida "0123456789" [] (Phone.mk "0123456789")
           [Phone.mk "0987654321"; Phone.mk "0123456789"] eq_refl eq_refl).
  intros p Hin. inversion Hin.
Defined.

(** [Record.remove_phone] with a number the Record does not hold does
    nothing, and raises nothing. *)
Theorem remove_phone_unknown_number r number :
  (forall ph, ph ∈ Record.phones r -> Phone.value ph <> number) ->
  Record.remove_phone number r = (Ok tt, r).
Proof.
  intros Habsent. unfold Record.remove_phone.
  rewrite (find_phone_absent _ _ Habsent). reflexivity.
Qed.

Lemma remove_phone_unknown_number_witness :
  Record.remove_phone "5555555555" ida = (Ok tt, ida).
Proof.
  apply (remove_phone_unknown_number ida "5555555555").
  intros ph Hin. cbn in Hin.
  repeat (apply elem_of_cons in Hin as [-> | Hin]; [discriminate|]).
  inversion Hin.
Defined.

End PhoneCommands.

(** ** A birthday that is added and then shown *)

Section BirthdayCommands.
Import datetime.

Lemma two_digits_day_text t : two_digits t = true -> day_text t = true.
Proof.
  unfold two_digits, day_text. destruct (chars t) as [|a [|b [|c l]]]; try discriminate.
  intros H. apply andb_true_iff in H as [Ha Hb]. rewrite Ha, Hb. reflexivity.
Qed.

Lemma two_digits_month_text t : two_digits t = true -> month_text t = true.
Proof.
  unfold two_digits, month_text. destruct (chars t) as [|a [|b [|c l]]]; try discriminate.
  intros H. exact H.
Qed.

Lemma show_birthday_found pads book name rest r b :
  AddressBook.find name book = Some r -> Record.birthday r = Some b ->
  show_birthday pads (name :: rest) book = (Ok (Birthday.date_str pads b), book).
Proof.
  intros Hfind Hb. unfold show_birthday, input_error, bind, lift, gets, ret, first_arg.
  rewrite Hfind. cbn beta iota. rewrite Hb. reflexivity.
Qed.

(** A contact without a birthday gets one from a text of two digits for
    the day, two for the month and four for the year that names a
    calendar date; [show_birthday] then answers with that very text. On a
    platform that does not pad the year this needs a year from 1000 on. *)
Theorem birthday_added_then_shown pads book name r ds ms ys rest :
  AddressBook.find name book = Some r ->
  Record.birthday r = None ->
  two_digits ds = true -> two_digits ms = true -> year_text ys = true ->
  valid (mkdate (int ys) (int ms) (int ds)) ->
  pads = true \/ 1000 <= int ys ->
  exists book',
    add_birthday (name :: (ds +:+ "." +:+ ms +:+ "." +:+ ys) :: rest) book
      = (Ok "Birthday added.", book')
    /\ show_birthday pads [name] book' = (Ok (ds +:+ "." +:+ ms +:+ "." +:+ ys), book').
Proof.
  intros Hfind Hnone Hd Hm Hy Hvalid Hpads.
  pose proof (strptime_complete ds ms ys (two_digits_day_text _ Hd)
                (two_digits_month_text _ Hm) Hy Hvalid) as Hparse.
  eexists. split.
  - unfold add_birthday, input_error, bind, lift, gets, ret, on_record, unpack2.
    rewrite Hfind. cbn beta iota. rewrite Hfind.
    unfold Record.add_birthday. rewrite Hnone.
    unfold Birthday.new. rewrite Hparse. reflexivity.
  - erewrite show_birthday_found; [|apply get_setitem|reflexivity].
    unfold Birthday.date_str. cbn [Birthday.value].
    rewrite (strftime_dmY_digits pads _ Hvalid Hpads). cbn [year month day].
    rewrite (dec2_int _ Hd), (dec2_int _ Hm), (dec4_int _ Hy). reflexivity.
Qed.

Lemma birthday_added_then_shown_witness :
  exists book',
    add_birthday ["Fay"; "07.03.1999"] sample_book = (Ok "Birthday added.", book')
    /\ show_birthday false ["Fay"] book' = (Ok "07.03.1999", book').
Proof.
  apply (birthday_added_then_shown false sample_book "Fay" fay "07" "03" "1999" []);
    try reflexivity.
  - change (valid (mkdate 1999 3 7)). unfold valid. cbn. lia.
  - right. change (1000 <= 1999). lia.
Defined.

End BirthdayCommands.

(** ** Addresses: adding, changing, removing, showing *)

Section AddressCommands.

Lemma replace_first_first old new before x after :
  Address.value x = old ->
  (forall a, a ∈ before -> Address.value a <> old) ->
  replace_first old new (before ++ x :: after)%list
    = Some (before ++ Address.mk new :: after)%list.
Proof.
  intros Hx. induction before as [|a before IH]; intros Hbefore; cbn.
  - rewrite Hx, String.eqb_refl. reflexivity.
  - destruct (String.eqb_spec (Address.value a) old) as [E | _].
    + exfalso. apply (Hbefore a); [left | exact E].
    + rewrite IH; [reflexivity|]. intros y Hy. apply Hbefore. right. exact Hy.
Qed.

Lemma show_address_found book name rest r l :
  AddressBook.find name book = Some r -> Record.addresses r = Some l ->
  show_address (name :: rest) book
    = (Ok (or_text (String.concat "; " (Address.value <$> l)) "No addresses."), book).
Proof.
  intros Hfind Hl. unfold show_address, input_error, bind, lift, gets, ret, first_arg.
  rewrite Hfind. cbn beta iota. rewrite Hl. cbv zeta. unfold or_text.
  destruct (len _ =? 0); reflexivity.
Qed.

Lemma add_address_found book name a rest r :
  AddressBook.find name book = Some r ->
  add_address (name :: a :: rest) book
    = (Ok "Address added.",
       AddressBook._setitem name
         (Record.with_addresses r
            (Some (match Record.addresses r with Some l => l | None => [] end
                   ++ [Address.mk a])%list)) book).
Proof.
  intros Hfind. unfold add_address, input_error, bind, lift, gets, ret, on_record, unpack2.
  rewrite Hfind. cbn beta iota. rewrite Hfind. reflexivity.
Qed.

Lemma remove_address_found book name a rest r l :
  AddressBook.find name book = Some r -> Record.addresses r = Some l ->
  remove_address (name :: a :: rest) book
    = (Ok "Address removed.",
       AddressBook._setitem name
         (Record.with_addresses r
            (Some (filter (fun addr => Address.value addr <> a) l))) book).
Proof.
  intros Hfind Hl.
  unfold remove_address, input_error, bind, lift, gets, ret, on_record, unpack2.
  rewrite Hfind. cbn beta iota. rewrite Hl. cbn beta iota. rewrite Hfind. reflexivity.
Qed.

Lemma change_address_found book name old new rest r l :
  AddressBook.find name book = Some r -> Record.addresses r = Some l ->
  change_address (name :: old :: new :: rest) book
    = match replace_first old new l with
      | Some l' =>
          (Ok "Address updated.",
           AddressBook._setitem name (Record.with_addresses r (Some l')) book)
      | None => (Ok "Old address not found.", book)
      end.
Proof.
  intros Hfind Hl.
  unfold change_address, input_error, bind, lift, gets, ret, on_record, unpack3.
  rewrite Hfind. cbn beta iota. rewrite Hl. cbn beta iota.
  destruct (replace_first old new l); [|reflexivity].
  cbn beta iota. rewrite Hfind. reflexivity.
Qed.

(** What [show_address] answers right after [add_address] has taken an
    address that is not the empty text: the addresses the contact had
    before, in their order, and the new one last, joined by "; ". A
    contact that never got an address counts as having none. *)
Theorem address_added_then_shown book name r a rest :
  AddressBook.find name book = Some r ->
  a <> "" ->
  exists book',
    add_address (name :: a :: rest) book = (Ok "Address added.", book')
    /\ show_address [name] book'
       = (Ok (String.concat "; "
                (match Record.addresses r with
                 | Some l => Address.value <$> l
                 | None => []
                 end ++ [a])%list),
          book').
Proof.
  intros Hfind Ha. eexists. split; [apply (add_address_found _ _ _ _ _ Hfind)|].
  erewrite show_address_found; [|apply get_setitem|reflexivity].
  rewrite fmap_app. cbn [fmap list_fmap Address.value].
  rewrite or_text_nonempty by (apply concat_last_nonempty, Ha).
  destruct (Record.addresses r); reflexivity.
Qed.

Lemma address_added_then_shown_witness :
  exists book',
    add_address ["Ann"; "Kyiv"] sample_book = (Ok "Address added.", book')
    /\ show_address ["Ann"] book' = (Ok "Kyiv", book').
Proof.
  apply (address_added_then_shown sample_book "Ann" ann "Kyiv" [] eq_refl).
  discriminate.
Defined.

(** [change_address] for a contact whose address list holds the old
    address changes its first occurrence only: that place carries the new
    address, the other addresses and the other contacts are as before. *)
Theorem change_address_first_occurrence book name r old new rest before x after :
  AddressBook.find name book = Some r ->
  Record.addresses r = Some (before ++ x :: after)%list ->
  Address.value x = old ->
  (forall a, a ∈ before -> Address.value a <> old) ->
  exists book',
    change_address (name :: old :: new :: rest) book = (Ok "Address updated.", book')
    /\ AddressBook.find name book'
       = Some (Record.with_addresses r (Some (before ++ Address.mk new :: after)%list))
    /\ AddressBook.keys book' = AddressBook.keys book
    /\ forall other,
         other <> name -> AddressBook.find other book' = AddressBook.find other book.
Proof.
  intros Hfind Hl Hx Hbefore. eexists. split; [|split; [apply get_setitem|split]].
  - rewrite (change_address_found _ _ _ _ _ _ _ Hfind Hl).
    rewrite (replace_first_first old new before x after Hx Hbefore). reflexivity.
  - apply (keys_setitem_present _ _ _ _ Hfind).
  - intros other Hne. apply get_setitem_other. congruence.
Qed.

Lemma change_address_first_occurrence_witness :
  exists book',
    change_address ["Gus"; "Lviv"; "Odesa"] [("Gus", gus)] = (Ok "Address updated.", book')
    /\ AddressBook.find "Gus" book'
       = Some (Record.with_addresses gus
                 (Some [Address.mk "Kyiv"; Address.mk "Odesa"; Address.mk "Lviv"])).
Proof.
  destruct (change_address_first_occurrence [("Gus", gus)] "Gus" gus "Lviv" "Odesa" []
              [Address.mk "Kyiv"] (Address.mk "Lviv") [Address.mk "Lviv"]
              eq_refl eq_refl eq_refl) as (book' & Hcmd & Hfound & _).
  - intros a Hin. apply list_elem_of_singleton in Hin as ->. discriminate.
  - exists book'. split; [exact Hcmd | exact Hfound].
Defined.

(** [remove_address] takes out every occurrence of the address and
    keeps the other addresses as they are, in their order: the new list is
    the old one without the elements that carry the address. The contact
    keeps an address list, also when it becomes empty; the keys and the
    other contacts are as before; and afterwards [change_address] from
    that address answers "Old address not found.". *)
Theorem remove_address_every_occurrence book name r l a rest :
  AddressBook.find name book = Some r ->
  Record.addresses r = Some l ->
  exists book',
    remove_address (name :: a :: rest) book = (Ok "Address removed.", book')
    /\ AddressBook.find name book'
       = Some (Record.with_addresses r
                 (Some (filter (fun addr => Address.value addr <> a) l)))
    /\ (forall before x after,
          l = (before ++ x :: after)%list ->
          filter (fun addr => Address.value addr <> a) l
          = (filter (fun addr => Address.value addr <> a) before
             ++ (if String.eqb (Address.value x) a then [] else [x])
             ++ filter (fun addr => Address.value addr <> a) after)%list)
    /\ ((forall x, x ∈ l -> Address.value x <> a) ->
        filter (fun addr => Address.value addr <> a) l = l)
    /\ AddressBook.keys book' = AddressBook.keys book
    /\ (forall other,
          other <> name -> AddressBook.find other book' = AddressBook.find other book)
    /\ forall new rest',
         change_address (name :: a :: new :: rest') book'
           = (Ok "Old address not found.", book').
Proof.
  intros Hfind Hl.
  exists (AddressBook._setitem name
            (Record.with_addresses r
               (Some (filter (fun addr => Address.value addr <> a) l))) book).
  split; [apply (remove_address_found _ _ _ _ _ _ Hfind Hl)|].
  split; [apply get_setitem|]. split; [|split; [|split; [|split]]].
  - intros before x after ->. rewrite filter_app, filter_cons.
    destruct (String.eqb_spec (Address.value x) a) as [E | E].
    + destruct (decide (Address.value x <> a)); [contradiction | reflexivity].
    + destruct (decide (Address.value x <> a)); [reflexivity | contradiction].
  - apply filter_absent.
  - apply (keys_setitem_present _ _ _ _ Hfind).
  - intros other Hne. apply get_setitem_other. congruence.
  - intros new rest'.
    erewrite change_address_found; [|apply get_setitem|reflexivity].
    rewrite replace_first_absent; [reflexivity|].
    intros x Hx. apply list_elem_of_filter in Hx as [Hne _]. exact Hne.
Qed.

Lemma remove_address_every_occurrence_witness :
  exists book',
    remove_address ["Gus"; "Lviv"] [("Gus", gus)] = (Ok "Address removed.", book')
    /\ AddressBook.find "Gus" book'
       = Some (Record.with_addresses gus (Some [Address.mk "Kyiv"]))
    /\ change_address ["Gus"; "Lviv"; "Odesa"] book'
       = (Ok "Old address not found.", book').
Proof.
  destruct (remove_address_every_occurrence [("Gus", gus)] "Gus" gus
              [Address.mk "Kyiv"; Address.mk "Lviv"; Address.mk "Lviv"] "Lviv" []
              eq_refl eq_refl) as (book' & Hcmd & Hfound & _ & _ & _ & _ & Hchange).
  exists book'. split; [exact Hcmd|]. split; [exact Hfound | apply Hchange].
Defined.

End AddressCommands.

(** ** When the report of birthdays completes, and what it holds *)

Section ReportCompletes.
Import datetime.

Lemma day_fits_any_year x y :
  valid x -> ~ (month x = 2 /\ day x = 29) -> day x <= _days_in_month y (month x).
Proof.
  intros (_ & Hm & Hd) Hnot. unfold _days_in_month in *.
  destruct (month x =? 2) eqn:E2; cbn [andb] in *.
  - apply Z.eqb_eq in E2. rewrite E2 in *.
    destruct (_is_leap (year x)), (_is_leap y); cbn in *; lia.
  - lia.
Qed.

Lemma leap_then_next_not y : _is_leap y = true -> _is_leap (y + 1) = false.
Proof.
  intros H. apply is_leap_true in H as [H4 _]. apply is_leap_false. left. dlia.
Qed.

Lemma ordinal_before_last_year today :
  valid today -> year today < 9999 -> toordinal today + 365 <= _MAXORDINAL.
Proof.
  intros (Hy & Hm & Hd) Hlast. unfold toordinal, _ymd2ord, _MAXORDINAL.
  pose proof (day_of_year_bounds _ _ _ Hm Hd) as B.
  pose proof (days_before_year_lt (year today) 9999 Hlast) as L.
  assert (_days_before_year 9999 = 3651694) as E by reflexivity.
  lia.
Qed.

Lemma candidate_regular today b :
  valid today -> year today < 9999 ->
  valid (Birthday.value b) ->
  ~ (month (Birthday.value b) = 2 /\ day (Birthday.value b) = 29) ->
  exists c, AddressBook.candidate today b = Ok c.
Proof.
  intros Ht Hlast Hb Hnot. unfold AddressBook.candidate, replace_year.
  pose proof (day_fits_any_year _ (year today) Hb Hnot) as H0.
  pose proof (day_fits_any_year _ (year today + 1) Hb Hnot) as H1.
  destruct Ht as (Hy & _), Hb as (_ & Hm & Hd).
  rewrite new_valid by (unfold valid; cbn [year month day]; lia). cbn [rbind].
  cbn [month day].
  destruct (ltb _ today); [|eauto].
  rewrite new_valid by (unfold valid; cbn [year month day]; lia). eauto.
Qed.

Lemma candidate_leap_day today b :
  valid today ->
  month (Birthday.value b) = 2 -> day (Birthday.value b) = 29 ->
  feb29_ahead today ->
  AddressBook.candidate today b = Ok (mkdate (year today) 2 29).
Proof.
  intros Ht Hm Hd [Hleap Hahead]. unfold AddressBook.candidate, replace_year.
  rewrite Hm, Hd.
  assert (valid (mkdate (year today) 2 29)) as Hv.
  { unfold valid, _days_in_month. cbn [year month day]. rewrite Hleap.
    destruct Ht as (Hy & _). cbn. lia. }
  rewrite (new_valid _ _ _ Hv). cbn [rbind].
  rewrite (ltb_toordinal _ _ Hv Ht).
  replace (_ <? _) with false by (symmetry; apply Z.ltb_ge; exact Hahead).
  reflexivity.
Qed.

Lemma candidate_leap_day_raises today b :
  valid today ->
  month (Birthday.value b) = 2 -> day (Birthday.value b) = 29 ->
  ~ feb29_ahead today ->
  exists e, AddressBook.candidate today b = Raise e.
Proof.
  intros Ht Hm Hd Hnot. unfold AddressBook.candidate, replace_year.
  rewrite Hm, Hd.
  destruct (new (year today) 2 29) as [x|e] eqn:En; [|cbn; eauto].
  apply new_Ok in En as [-> Hv]. cbn [rbind].
  assert (_is_leap (year today) = true) as Hleap.
  { destruct Hv as (_ & _ & Hday). cbn [year month day] in Hday.
    unfold _days_in_month in Hday.
    destruct (_is_leap (year today)); [reflexivity | cbn in Hday; lia]. }
  rewrite (ltb_toordinal _ _ Hv Ht).
  destruct (_ <? _) eqn:Elt.
  - cbn [month day].
    destruct (new (year today + 1) 2 29) as [x|e] eqn:En; [|eauto].
    apply new_Ok in En as [-> (_ & _ & Hday)]. cbn [year month day] in Hday.
    unfold _days_in_month in Hday. rewrite (leap_then_next_not _ Hleap) in Hday.
    cbn in Hday. lia.
  - exfalso. apply Hnot. split; [exact Hleap|]. apply Z.ltb_ge, Elt.
Qed.

Lemma greeting_candidate_raises pads today next_week rec b e :
  Record.birthday rec = Some b ->
  AddressBook.candidate today b = Raise e ->
  AddressBook.greeting pads today next_week rec = Raise e.
Proof.
  intros Hb Hc. unfold AddressBook.greeting. rewrite Hb, Hc. reflexivity.
Qed.

Lemma report_of_candidates pads today book :
  valid today ->
  toordinal today + 7 <= _MAXORDINAL ->
  (forall rec b, rec ∈ AddressBook.values book -> Record.birthday rec = Some b ->
                 exists c, AddressBook.candidate today b = Ok c) ->
  AddressBook.get_upcoming_birthdays pads today book
    = Ok (omap (spec_greeting pads today) (AddressBook.values book)).
Proof.
  intros Ht Hmax Hall. unfold AddressBook.get_upcoming_birthdays.
  pose proof (toordinal_bounds today Ht) as Hb.
  rewrite (add_days_in_range today 7) by lia. cbn [rbind].
  rewrite (greetings_loop_spec pads today _ (spec_greeting pads today)); [reflexivity|].
  intros rec Hin. unfold spec_greeting.
  destruct (Record.birthday rec) as [b|] eqn:Eb.
  - destruct (Hall rec b Hin Eb) as [c Hc]. rewrite Hc.
    apply (greeting_spec pads today _ rec b c Ht); [|exact Eb|exact Hc].
    apply add_days_in_range. lia.
  - apply greeting_no_birthday, Eb.
Qed.

Lemma sample_book_valid rec b :
  rec ∈ AddressBook.values sample_book -> Record.birthday rec = Some b ->
  valid (Birthday.value b).
Proof.
  cbn. intros Hin.
  repeat (apply elem_of_cons in Hin as [-> | Hin]).
  all: try (inversion Hin; fail).
  all: cbn; intros Hb; try discriminate Hb; inversion Hb; subst b;
    unfold valid; cbn; lia.
Defined.

Lemma leap_book_valid rec b :
  rec ∈ AddressBook.values leap_book -> Record.birthday rec = Some b ->
  valid (Birthday.value b).
Proof.
  cbn. intros Hin.
  repeat (apply elem_of_cons in Hin as [-> | Hin]).
  all: try (inversion Hin; fail).
  all: cbn; intros Hb; try discriminate Hb; inversion Hb; subst b;
    unfold valid; cbn [Birthday.value year month day];
    repeat split; apply Z.leb_le; reflexivity.
Defined.

Lemma feb29_ahead_dec today : {feb29_ahead today} + {~ feb29_ahead today}.
Proof.
  unfold feb29_ahead.
  destruct (_is_leap (year today)); [|right; intros [H _]; discriminate].
  destruct (Z_le_dec (toordinal today) (toordinal (mkdate (year today) 2 29)));
    [left; split; [reflexivity | assumption] | right; intros [_ H]; contradiction].
Qed.

(** Exactly when the report completes. With today before the year 9999
    and calendar dates as birthdays, the query returns its list if and
    only if every birthday on February 29 finds today in a leap year, on
    or before its February 29; in every other case the date replacement
    raises and the query, and with it the [birthdays] command, ends in
    that exception. *)
Theorem report_completes_exactly pads today book :
  valid today -> year today < 9999 ->
  (forall rec b, rec ∈ AddressBook.values book -> Record.birthday rec = Some b ->
                 valid (Birthday.value b)) ->
  ((exists lines, AddressBook.get_upcoming_birthdays pads today book = Ok lines)
   <-> (forall rec b,
          rec ∈ AddressBook.values book -> Record.birthday rec = Some b ->
          month (Birthday.value b) = 2 -> day (Birthday.value b) = 29 ->
          feb29_ahead today))
  /\ ((exists text, birthdays pads today book = Ok text)
      <-> (exists lines, AddressBook.get_upcoming_birthdays pads today book = Ok lines)).
Proof.
  intros Ht Hlast Hvalid.
  pose proof (ordinal_before_last_year today Ht Hlast) as Hmax.
  pose proof (toordinal_bounds today Ht) as Hb.
  split; [split|].
  - intros [lines Hlines] rec b Hin Hbirth Hm Hd.
    destruct (feb29_ahead_dec today) as [Hok | Hnot]; [exact Hok | exfalso].
    destruct (candidate_leap_day_raises today b Ht Hm Hd Hnot) as [e He].
    unfold AddressBook.get_upcoming_birthdays in Hlines.
    rewrite (add_days_in_range today 7) in Hlines by lia. cbn [rbind] in Hlines.
    destruct (greetings_loop_raises pads today (fromordinal (toordinal today + 7))
                (AddressBook.values book) [] rec e Hin
                (greeting_candidate_raises _ _ _ _ _ _ Hbirth He)) as [e' He'].
    rewrite He' in Hlines. discriminate.
  - intros Hleap. eexists. apply report_of_candidates; [exact Ht | lia |].
    intros rec b Hin Hbirth.
    destruct (Z.eq_dec (month (Birthday.value b)) 2) as [Hm | Hm].
    + destruct (Z.eq_dec (day (Birthday.value b)) 29) as [Hd | Hd].
      * eexists. apply (candidate_leap_day today b Ht Hm Hd (Hleap rec b Hin Hbirth Hm Hd)).
      * apply (candidate_regular today b Ht Hlast (Hvalid rec b Hin Hbirth)). tauto.
    + apply (candidate_regular today b Ht Hlast (Hvalid rec b Hin Hbirth)). tauto.
  - unfold birthdays.
    destruct (AddressBook.get_upcoming_birthdays pads today book) as [lines|e]; cbn.
    + split; intros _; [eauto|]. destruct lines; eauto.
    + split; intros [x Hx]; discriminate.
Qed.

Lemma report_completes_exactly_witness :
  (exists lines, AddressBook.get_upcoming_birthdays false sample_today sample_book = Ok lines)
  /\ ~ (exists lines,
          AddressBook.get_upcoming_birthdays false sample_today leap_book = Ok lines).
Proof.
  assert (valid sample_today) as Ht by (unfold valid, sample_today; cbn; lia).
  assert (year sample_today < 9999) as Hlast by (cbn; lia).
  split.
  - apply (proj1 (report_completes_exactly false sample_today sample_book Ht Hlast
                    sample_book_valid)).
    intros rec b Hin Hb Hm Hd. exfalso. revert Hin Hb Hm Hd. cbn.
    intros Hin.
    repeat (apply elem_of_cons in Hin as [-> | Hin]).
    all: try (inversion Hin; fail).
    all: cbn; intros Hb; try discriminate Hb; inversion Hb; subst b; cbn; lia.
  - intros Hlines.
    pose proof (proj1 (proj1 (report_completes_exactly false sample_today leap_book
                                Ht Hlast leap_book_valid)) Hlines
                  cyd (Birthday.mk (mkdate 2000 2 29))) as Hcyd.
    destruct Hcyd as [_ Hahead]; try reflexivity.
    + cbn. right. left.
    + vm_compute in Hahead. apply Hahead. reflexivity.
Defined.

Lemma greetings_loop_lines pads today next_week recs :
  forall acc lines line,
    AddressBook._greetings_loop pads today next_week recs acc = Ok lines ->
    line ∈ lines ->
    line ∈ acc
    \/ exists rec, rec ∈ recs
                   /\ AddressBook.greeting pads today next_week rec = Ok (Some line).
Proof.
  induction recs as [|r recs IH]; intros acc lines line; cbn.
  - intros [= <-] Hin. left. exact Hin.
  - destruct (AddressBook.greeting pads today next_week r) as [l|e] eqn:Er; cbn;
      [|discriminate].
    intros Hloop Hin. destruct (IH _ _ _ Hloop Hin) as [Hacc | (rec & Hrec & Hg)].
    + destruct l as [l|].
      * apply elem_of_app in Hacc as [Hacc | Hl]; [left; exact Hacc|].
        apply list_elem_of_singleton in Hl as ->.
        right. exists r. split; [left | exact Er].
      * left. exact Hacc.
    + right. exists rec. split; [right; exact Hrec | exact Hg].
Qed.

Lemma weekday_range c : 0 <= weekday c <= 6.
Proof. unfold weekday. dlia. Qed.

(** What a report holds. Every line of a report that the query returns
    comes from a contact of the book with a birthday: it is the date of
    the congratulation, a colon and the contact's name. That date falls
    on a day from Monday to Friday, is not before today and is at most
    nine days after today (a birthday on the Saturday seven days out is
    announced for the Monday after it). *)
Theorem report_lines_are_working_days pads today book lines :
  valid today ->
  AddressBook.get_upcoming_birthdays pads today book = Ok lines ->
  forall line,
    line ∈ lines ->
    exists rec b c,
      rec ∈ AddressBook.values book
      /\ Record.birthday rec = Some b
      /\ AddressBook.candidate today b = Ok c
      /\ line = strftime_Ymd pads (shifted c) +:+ ": " +:+ Name.value (Record.name rec)
      /\ valid (shifted c)
      /\ weekday (shifted c) <= 4
      /\ toordinal today <= toordinal (shifted c) <= toordinal today + 9.
Proof.
  intros Ht Hreport line Hin. unfold AddressBook.get_upcoming_birthdays in Hreport.
  destruct (add_days today 7) as [next_week|e] eqn:Enext; [|discriminate].
  cbn [rbind] in Hreport.
  destruct (greetings_loop_lines _ _ _ _ _ _ _ Hreport Hin) as [Hnil | (rec & Hrec & Hg)];
    [inversion Hnil|].
  destruct (Record.birthday rec) as [b|] eqn:Hb;
    [|rewrite (greeting_no_birthday _ _ _ _ Hb) in Hg; discriminate].
  destruct (AddressBook.candidate today b) as [c|e] eqn:Hc;
    [|rewrite (greeting_candidate_raises _ _ _ _ _ _ Hb Hc) in Hg; discriminate].
  rewrite (greeting_spec pads today next_week rec b c Ht Enext Hb Hc) in Hg.
  destruct (in_window today c) eqn:Hw; [|discriminate].
  injection Hg as <-. apply in_window_iff in Hw.
  destruct (candidate_spec _ _ _ Ht Hc) as (Hv & _).
  destruct (shifted_spec c Hv) as (Hvs & Hord & Hsat & Hsun & Hweek).
  pose proof (weekend_shift_range c) as Hshift.
  pose proof (weekday_range c) as Hrange.
  exists rec, b, c.
  split; [exact Hrec|]. split; [exact Hb|]. split; [exact Hc|].
  split; [reflexivity|]. split; [exact Hvs|]. split; [|lia].
  destruct (Z.eq_dec (weekday c) 5) as [E5 | N5]; [destruct (Hsat E5); lia|].
  destruct (Z.eq_dec (weekday c) 6) as [E6 | N6]; [destruct (Hsun E6); lia|].
  rewrite (Hweek ltac:(lia)). lia.
Qed.

Lemma report_lines_are_working_days_witness :
  exists rec b c,
    rec ∈ AddressBook.values sample_book
    /\ Record.birthday rec = Some b
    /\ AddressBook.candidate sample_today b = Ok c
    /\ "2024-06-17: Ann"
       = strftime_Ymd false (shifted c) +:+ ": " +:+ Name.value (Record.name rec)
    /\ valid (shifted c)
    /\ weekday (shifted c) <= 4
    /\ toordinal sample_today <= toordinal (shifted c) <= toordinal sample_today + 9.
Proof.
  apply (report_lines_are_working_days false sample_today sample_book
           ["2024-06-17: Ann"; "2024-06-17: Dan"]).
  - unfold valid, sample_today. cbn. lia.
  - vm_compute. reflexivity.
  - left.
Defined.

End ReportCompletes.

(** ** Reading a command line *)

Section ParseInput.

Lemma forallb_Forall {A} (f : A -> bool) (l : list A) :
  forallb f l = true <-> Forall (fun x => f x = true) l.
Proof.
  induction l as [|x l IH]; cbn.
  - split; [constructor | reflexivity].
  - rewrite andb_true_iff, Forall_cons, IH. reflexivity.
Qed.

Lemma chars_append s t : chars (s +:+ t) = (chars s ++ chars t)%list.
Proof.
  unfold chars. induction s as [|a s IH]; [reflexivity|].
  change (String a s +:+ t) with (String a (s +:+ t)).
  cbn [list_ascii_of_string app]. rewrite IH. reflexivity.
Qed.

Lemma split_words_blank sp word :
  Forall (fun c => is_space c = true) sp ->
  split_words sp word
    = match word with [] => [] | _ => [string_of_list_ascii word] end.
Proof.
  intros Hsp. revert word. induction Hsp as [|c sp Hc _ IH]; intros word; [reflexivity|].
  cbn [split_words]. rewrite Hc, IH. destruct word; reflexivity.
Qed.

Lemma split_words_tail cs sp word :
  Forall (fun c => is_space c = true) sp ->
  split_words (cs ++ sp) word = split_words cs word.
Proof.
  intros Hsp. revert word. induction cs as [|a cs IH]; intros word.
  - cbn [app]. rewrite (split_words_blank _ _ Hsp). destruct word; reflexivity.
  - cbn [app split_words]. destruct (is_space a); destruct word; rewrite ?IH; reflexivity.
Qed.

Lemma split_words_lead sp cs :
  Forall (fun c => is_space c = true) sp ->
  split_words (sp ++ cs) [] = split_words cs [].
Proof.
  intros Hsp. induction Hsp as [|c sp Hc _ IH]; [reflexivity|].
  cbn [app split_words]. rewrite Hc. exact IH.
Qed.

Lemma split_words_word w rest acc :
  Forall (fun c => is_space c = false) w ->
  split_words (w ++ rest) acc = split_words rest (acc ++ w).
Proof.
  intros Hw. revert acc. induction Hw as [|c w Hc _ IH]; intros acc.
  - rewrite app_nil_r. reflexivity.
  - cbn [app split_words]. rewrite Hc, IH, <- app_assoc. reflexivity.
Qed.

Lemma drop_spaces_spec l :
  exists sp, l = (sp ++ drop_spaces l)%list /\ Forall (fun c => is_space c = true) sp.
Proof.
  induction l as [|c l (sp & E & Hsp)]; [exists []; split; [reflexivity | constructor]|].
  cbn [drop_spaces]. destruct (is_space c) eqn:Ec.
  - exists (c :: sp). split; [cbn; rewrite <- E; reflexivity | constructor; assumption].
  - exists []. split; [reflexivity | constructor].
Qed.

(** [s.strip().split()] is [s.split()]. *)
Lemma split_strip s : split (strip s) = split s.
Proof.
  unfold split, strip, chars. rewrite list_ascii_of_string_of_list_ascii.
  generalize (list_ascii_of_string s). intros l.
  destruct (drop_spaces_spec l) as (sp1 & E1 & H1).
  remember (drop_spaces l) as l1 eqn:D1.
  destruct (drop_spaces_spec (rev l1)) as (sp2 & E2 & H2).
  remember (drop_spaces (rev l1)) as l2 eqn:D2.
  rewrite E1, (split_words_lead _ _ H1).
  assert (l1 = (rev l2 ++ rev sp2)%list) as ->
    by (rewrite <- rev_app_distr, <- E2, rev_involutive; reflexivity).
  rewrite split_words_tail by (apply Forall_rev, H2). reflexivity.
Qed.

Lemma word_of_chars w :
  w <> [] -> Forall (fun c => is_space c = false) w ->
  is_word (string_of_list_ascii w) = true.
Proof.
  intros Hne Hw. unfold is_word, len, chars.
  rewrite list_ascii_of_string_of_list_ascii. apply andb_true_iff. split.
  - destruct w as [|a w]; [contradiction|]. cbn [string_of_list_ascii String.length].
    apply negb_true_iff, Z.eqb_neq. lia.
  - apply forallb_Forall. eapply Forall_impl; [exact Hw|].
    cbn. intros c ->. reflexivity.
Qed.

Lemma is_word_chars w :
  is_word w = true <-> w <> "" /\ Forall (fun c => is_space c = false) (chars w).
Proof.
  unfold is_word. rewrite andb_true_iff, negb_true_iff, forallb_Forall.
  assert ((len w =? 0) = false <-> w <> "") as ->.
  { split.
    - intros H ->. discriminate H.
    - apply len_nonzero. }
  assert (Forall (fun c => negb (is_space c) = true) (chars w)
          <-> Forall (fun c => is_space c = false) (chars w)) as ->; [|reflexivity].
  split; intros H; (eapply Forall_impl; [exact H|]); intros c; apply negb_true_iff.
Qed.

Lemma split_words_shape cs :
  forall word,
    Forall (fun c => is_space c = false) word ->
    Forall (fun w => is_word w = true) (split_words cs word).
Proof.
  induction cs as [|a cs IH]; intros word Hword; cbn [split_words].
  - destruct word as [|c word]; [constructor|].
    constructor; [|constructor]. apply word_of_chars; [discriminate | exact Hword].
  - destruct (is_space a) eqn:Ea.
    + destruct word as [|c word]; [apply IH; constructor|].
      constructor; [|apply IH; constructor].
      apply word_of_chars; [discriminate | exact Hword].
    + apply IH. apply Forall_app. split; [exact Hword|]. constructor; [exact Ea | constructor].
Qed.

Lemma split_words_nil cs :
  forall word,
    split_words cs word = [] <-> word = [] /\ Forall (fun c => is_space c = true) cs.
Proof.
  induction cs as [|a cs IH]; intros word; cbn [split_words].
  - destruct word; split; try discriminate.
    + intros _. split; [reflexivity | constructor].
    + reflexivity.
    + intros [H _]. discriminate H.
  - destruct (is_space a) eqn:Ea.
    + destruct word as [|c word].
      * rewrite IH. split; intros [H1 H2]; (split; [reflexivity|]).
        -- constructor; assumption.
        -- apply Forall_cons in H2 as [_ H2]. exact H2.
      * split; [discriminate | intros [H _]; discriminate H].
    + rewrite IH. split.
      * intros [H _]. destruct word; discriminate H.
      * intros [_ H]. apply Forall_cons in H as [H _]. congruence.
Qed.

Lemma lower_char_idempotent c : lower_char (lower_char c) = lower_char c.
Proof. destruct c as [[] [] [] [] [] [] [] []]; vm_compute; reflexivity. Qed.

Lemma lower_char_space c : is_space (lower_char c) = is_space c.
Proof. destruct c as [[] [] [] [] [] [] [] []]; vm_compute; reflexivity. Qed.

Lemma lower_idempotent s : lower (lower s) = lower s.
Proof.
  unfold lower, chars. rewrite list_ascii_of_string_of_list_ascii.
  rewrite <- list_fmap_compose. f_equal. apply list_fmap_ext.
  intros _ c _. apply lower_char_idempotent.
Qed.

Lemma lower_word w : is_word w = true -> is_word (lower w) = true.
Proof.
  intros Hw. apply is_word_chars in Hw as [Hne Hw]. apply word_of_chars.
  - destruct w as [|a w]; [contradiction | discriminate].
  - apply Forall_fmap. eapply Forall_impl; [exact Hw|].
    cbn. intros c Hc. rewrite lower_char_space. exact Hc.
Qed.

(** What [parse_input] returns. Every argument is a word: it is not
    empty and holds no blank character. [lower] changes nothing in the
    command any more. For a line of blank characters only (the empty line
    among them) the command is the empty text and there is no argument;
    for every other line the command is a word. *)
Theorem parse_input_shape user_input cmd args :
  parse_input user_input = (cmd, args) ->
  Forall (fun w => is_word w = true) args
  /\ lower cmd = cmd
  /\ ((is_blank user_input = true /\ cmd = "" /\ args = [])
      \/ (is_blank user_input = false /\ is_word cmd = true)).
Proof.
  unfold parse_input. rewrite split_strip. unfold split.
  pose proof (split_words_shape (chars user_input) [] ltac:(constructor)) as Hshape.
  pose proof (split_words_nil (chars user_input) []) as Hnil.
  destruct (split_words (chars user_input) []) as [|w ws]; intros [= <- <-].
  - split; [constructor|]. split; [reflexivity|]. left.
    split; [|split; reflexivity].
    apply forallb_Forall, Hnil. reflexivity.
  - apply Forall_cons in Hshape as [Hw Hws].
    split; [exact Hws|]. split; [apply lower_idempotent|]. right.
    split; [|apply lower_word, Hw].
    destruct (is_blank user_input) eqn:Eb; [|reflexivity].
    apply forallb_Forall in Eb. destruct Hnil as [_ Hnil].
    discriminate (Hnil (conj eq_refl Eb)).
Qed.

Lemma parse_input_shape_witness :
  Forall (fun w => is_word w = true) ["Ann"; "0123456789"]
  /\ lower "add" = "add"
  /\ ((is_blank "  ADD Ann   0123456789 " = true
       /\ "add" = "" /\ ["Ann"; "0123456789"] = [])
      \/ (is_blank "  ADD Ann   0123456789 " = false /\ is_word "add" = true)).
Proof.
  apply (parse_input_shape "  ADD Ann   0123456789 " "add" ["Ann"; "0123456789"]).
  reflexivity.
Defined.

Lemma chars_concat_cons sep w w' ws :
  chars (String.concat sep (w :: w' :: ws))
  = (chars w ++ chars sep ++ chars (String.concat sep (w' :: ws)))%list.
Proof.
  change (String.concat sep (w :: w' :: ws))
    with (w +:+ sep +:+ String.concat sep (w' :: ws)).
  rewrite !chars_append. reflexivity.
Qed.

Lemma split_words_concat sep trail ws :
  sep <> "" ->
  Forall (fun c => is_space c = true) (chars sep) ->
  Forall (fun c => is_space c = true) trail ->
  forall w,
    Forall (fun w => is_word w = true) (w :: ws) ->
    split_words (chars (String.concat sep (w :: ws)) ++ trail) [] = w :: ws.
Proof.
  intros Hsep Hblank Htrail. induction ws as [|w' ws IH]; intros w Hwords.
  - apply Forall_cons in Hwords as [Hw _]. apply is_word_chars in Hw as [Hne Hw].
    cbn [String.concat]. rewrite (split_words_word _ _ _ Hw), app_nil_l.
    rewrite (split_words_blank _ _ Htrail). unfold chars.
    rewrite string_of_list_ascii_of_string.
    destruct w; [contradiction | reflexivity].
  - apply Forall_cons in Hwords as [Hw Hrest].
    apply is_word_chars in Hw as [Hne Hw].
    rewrite chars_concat_cons, <- !app_assoc.
    rewrite (split_words_word _ _ _ Hw), app_nil_l.
    destruct (chars sep) as [|c sp] eqn:Esep.
    { destruct sep; [contradiction | discriminate Esep]. }
    apply Forall_cons in Hblank as [Hc Hsp].
    cbn [app split_words]. rewrite Hc.
    destruct (chars w) as [|a cs] eqn:Ew.
    { destruct w; [contradiction | discriminate Ew]. }
    rewrite <- Ew. unfold chars at 1. rewrite string_of_list_ascii_of_string.
    f_equal. rewrite (split_words_lead sp _ Hsp). apply IH, Hrest.
Qed.

(** Words put on a line come back: for a command word and argument
    words joined by any non-empty run of blank characters, after and
    before any blank characters, [parse_input] returns the command in
    lower case and the arguments as they are. *)
Theorem parse_input_of_words lead sep trail cmd args :
  is_blank lead = true -> is_blank trail = true ->
  is_blank sep = true -> sep <> "" ->
  is_word cmd = true ->
  Forall (fun w => is_word w = true) args ->
  parse_input (lead +:+ String.concat sep (cmd :: args) +:+ trail) = (lower cmd, args).
Proof.
  intros Hlead Htrail Hsep Hne Hcmd Hargs.
  apply forallb_Forall in Hlead, Htrail, Hsep.
  unfold parse_input. rewrite split_strip. unfold split.
  rewrite !chars_append, (split_words_lead _ _ Hlead).
  rewrite (split_words_concat sep (chars trail) args Hne Hsep Htrail cmd);
    [reflexivity|].
  constructor; assumption.
Qed.

Lemma parse_input_of_words_witness :
  parse_input ("  " +:+ String.concat "   " ["Add-Birthday"; "Ann"; "07.03.1999"] +:+ " ")
    = ("add-birthday", ["Ann"; "07.03.1999"]).
Proof.
  apply (parse_input_of_words "  " "   " " " "Add-Birthday" ["Ann"; "07.03.1999"]);
    try reflexivity.
  - discriminate.
  - repeat constructor.
Defined.

End ParseInput.

(** ** The seed script *)

Section SeedScript.

Lemma has_birthday_find name book book' :
  AddressBook.find name book' = AddressBook.find name book ->
  has_birthday name book -> has_birthday name book'.
Proof. intros E (r & b & Hr & Hb). exists r, b. rewrite E. split; assumption. Qed.

(** One turn of the loop, for a name that is not empty and a text that
    is a date. *)
Lemma create_birthday_spec name text b0 book :
  name <> "" -> Birthday.new text = Ok b0 ->
  exists book',
    create_birthday name text book = (Ok tt, book')
    /\ has_birthday name book'
    /\ (forall other, other <> name ->
          AddressBook.find other book' = AddressBook.find other book)
    /\ (has_birthday name book -> book' = book).
Proof.
  intros Hname Hnew.
  unfold create_birthday, bind, gets, lift, modify, ret, on_record.
  destruct (AddressBook.find name book) as [r|] eqn:Hfind; cbn beta iota.
  - destruct (Record.birthday r) as [b|] eqn:Hb.
    + exists book. split; [reflexivity|]. split; [exists r, b; split; assumption|].
      split; [reflexivity | reflexivity].
    + rewrite Hfind. unfold Record.add_birthday. rewrite Hb, Hnew.
      eexists. split; [reflexivity|]. split; [|split].
      * exists (Record.with_birthday r (Some b0)), b0.
        split; [apply get_setitem | reflexivity].
      * intros other Hne. apply get_setitem_other. congruence.
      * intros (r' & b' & Hr' & Hb'). congruence.
  - unfold Record.new, Name.new. rewrite (len_nonzero _ Hname). cbn [rbind].
    cbn [Record.birthday].
    unfold AddressBook.add_record, AddressBook.find. cbn [Record.name Name.value].
    rewrite get_setitem. unfold Record.add_birthday. cbn [Record.birthday].
    rewrite Hnew. eexists. split; [reflexivity|]. split; [|split].
    + eexists _, b0. split; [apply get_setitem | reflexivity].
    + intros other Hne. unfold AddressBook.find.
      rewrite !get_setitem_other by congruence. reflexivity.
    + intros (r' & b' & Hr' & _). congruence.
Qed.

Lemma create_birthdays_loop_spec seeds :
  Forall (fun seed => seed.1 <> "" /\ exists b0, Birthday.new seed.2 = Ok b0) seeds ->
  forall book,
  exists book',
    create_birthdays_loop seeds book = (Ok tt, book')
    /\ (forall seed, seed ∈ seeds -> has_birthday seed.1 book')
    /\ (forall name, has_birthday name book ->
          AddressBook.find name book' = AddressBook.find name book)
    /\ (forall other, other ∉ seeds.*1 ->
          AddressBook.find other book' = AddressBook.find other book).
Proof.
  induction 1 as [|[name text] seeds [Hname [b0 Hnew]] _ IH]; intros book.
  - exists book. split; [reflexivity|]. split; [|split; reflexivity].
    intros seed Hin. inversion Hin.
  - destruct (create_birthday_spec name text b0 book Hname Hnew)
      as (book1 & Hstep & Hhas & Hother & Hsame).
    destruct (IH book1) as (book' & Hloop & Hall & Hkeep & Hrest).
    exists book'. cbn [create_birthdays_loop]. unfold bind at 1.
    rewrite Hstep. split; [exact Hloop|]. split; [|split].
    + intros seed Hin. apply elem_of_cons in Hin as [-> | Hin]; [|apply Hall, Hin].
      cbn [fst]. apply (has_birthday_find _ book1); [|exact Hhas].
      apply Hkeep, Hhas.
    + intros other Hb.
      assert (AddressBook.find other book1 = AddressBook.find other book) as E.
      { destruct (String.eqb_spec other name) as [-> | Hne];
          [rewrite (Hsame Hb); reflexivity | apply Hother, Hne]. }
      rewrite <- E. apply Hkeep. apply (has_birthday_find _ book); assumption.
    + intros other Hnot. cbn [fmap list_fmap fst] in Hnot.
      apply not_elem_of_cons in Hnot as [Hne Hnot].
      rewrite (Hrest other Hnot). apply Hother, Hne.
Qed.

Lemma create_birthdays_loop_fixed seeds :
  Forall (fun seed => seed.1 <> "" /\ exists b0, Birthday.new seed.2 = Ok b0) seeds ->
  forall book,
    (forall seed, seed ∈ seeds -> has_birthday seed.1 book) ->
    create_birthdays_loop seeds book = (Ok tt, book).
Proof.
  induction 1 as [|[name text] seeds [Hname [b0 Hnew]] _ IH]; intros book Hall;
    [reflexivity|].
  destruct (create_birthday_spec name text b0 book Hname Hnew)
    as (book1 & Hstep & _ & _ & Hsame).
  rewrite (Hsame (Hall (name, text) ltac:(left))) in Hstep.
  cbn [create_birthdays_loop]. unfold bind at 1. rewrite Hstep.
  apply IH. intros seed Hin. apply Hall. right. exact Hin.
Qed.

Lemma seed_birthdays_ok :
  Forall (fun seed => seed.1 <> "" /\ exists b0, Birthday.new seed.2 = Ok b0)
         seed_birthdays.
Proof.
  repeat constructor; try discriminate; eexists; vm_compute; reflexivity.
Qed.

(** [create_birthdays] on any book: it raises nothing; afterwards each
    of its three names has a birthday; a contact that had a birthday, one
    of the three included, has the Record it had; a name other than the
    three finds what it found before; and a second run changes nothing. *)
Theorem create_birthdays_fills_gaps_only book :
  exists book',
    create_birthdays book = (Ok tt, book')
    /\ (forall name, name ∈ ["John Smith"; "Emma Brown"; "Liam Johnson"] ->
          has_birthday name book')
    /\ (forall name, has_birthday name book ->
          AddressBook.find name book' = AddressBook.find name book)
    /\ (forall other, other ∉ ["John Smith"; "Emma Brown"; "Liam Johnson"] ->
          AddressBook.find other book' = AddressBook.find other book)
    /\ create_birthdays book' = (Ok tt, book').
Proof.
  destruct (create_birthdays_loop_spec seed_birthdays seed_birthdays_ok book)
    as (book' & Hrun & Hall & Hkeep & Hrest).
  exists book'. split; [exact Hrun|]. split; [|split; [exact Hkeep|split; [exact Hrest|]]].
  - intros name Hin.
    change ["John Smith"; "Emma Brown"; "Liam Johnson"] with (seed_birthdays.*1) in Hin.
    apply list_elem_of_fmap in Hin as (seed & -> & Hseed). apply Hall, Hseed.
  - apply (create_birthdays_loop_fixed seed_birthdays seed_birthdays_ok book' Hall).
Qed.

End SeedScript.

(** ** Commands that fail, commands that only read *)

Section CommandEffects.

Lemma input_error_book func args book :
  (input_error func args book).2 = (func args book).2.
Proof. unfold input_error. destruct (func args book) as [[msg|[]] book']; reflexivity. Qed.

Lemma on_record_same {A} name (method : Record.t -> result A * Record.t) book r :
  AddressBook.find name book = Some r ->
  (method r).2 = r ->
  (on_record name method book).2 = book.
Proof.
  intros Hfind Hsame. unfold on_record. rewrite Hfind.
  destruct (method r) as [outcome r']. cbn in *. subst r'.
  apply setitem_same, Hfind.
Qed.

Lemma edit_phone_failed old new r :
  (Record.edit_phone old new r).1 <> Ok true -> (Record.edit_phone old new r).2 = r.
Proof.
  unfold Record.edit_phone.
  destruct (Record.find_phone old (Record.phones r)) as [i|]; [|reflexivity].
  destruct (Record.phones r !! i) as [ph|]; [|reflexivity].
  destruct (Phone.update_number new ph) as [[[]|e] ph']; cbn; [contradiction | reflexivity].
Qed.

Lemma add_birthday_failed text r :
  (Record.add_birthday text r).1 <> Ok tt -> (Record.add_birthday text r).2 = r.
Proof.
  unfold Record.add_birthday.
  destruct (Record.birthday r); [reflexivity|].
  destruct (Birthday.new text); cbn; [contradiction | reflexivity].
Qed.

(** A command that does not answer with its message of success has
    changed nothing. This holds for [change_contact], [add_birthday] and
    the address commands, for all arguments and every book. ([add_contact]
    is not among them: it stores the new Record before it reads the
    phone.) *)
Theorem failed_commands_change_nothing args book :
  ((change_contact args book).1 <> Ok "Phone updated." ->
   (change_contact args book).2 = book)
  /\ ((add_birthday args book).1 <> Ok "Birthday added." ->
      (add_birthday args book).2 = book)
  /\ ((add_address args book).1 <> Ok "Address added." ->
      (add_address args book).2 = book)
  /\ ((change_address args book).1 <> Ok "Address updated." ->
      (change_address args book).2 = book)
  /\ ((remove_address args book).1 <> Ok "Address removed." ->
      (remove_address args book).2 = book).
Proof.
  split; [|split; [|split; [|split]]].
  - unfold change_contact. rewrite input_error_book.
    destruct args as [|name [|old [|new rest]]]; try reflexivity.
    unfold input_error, bind, lift, gets, raise, ret, unpack3. cbn beta iota.
    destruct (AddressBook.find name book) as [r|] eqn:Hfind; [|reflexivity].
    pose proof (on_record_same name (Record.edit_phone old new) book r Hfind) as Hsame.
    pose proof (edit_phone_failed old new r) as Hfailed.
    unfold on_record in *. rewrite Hfind in *.
    destruct (Record.edit_phone old new r) as [[[]|e] r']; cbn in *.
    + intros H. contradiction.
    + intros _. apply Hsame, Hfailed. discriminate.
    + intros _. apply Hsame, Hfailed. discriminate.
  - unfold add_birthday. rewrite input_error_book.
    destruct args as [|name [|text rest]]; try reflexivity.
    unfold input_error, bind, lift, gets, raise, ret, unpack2. cbn beta iota.
    destruct (AddressBook.find name book) as [r|] eqn:Hfind; [|reflexivity].
    pose proof (on_record_same name (Record.add_birthday text) book r Hfind) as Hsame.
    pose proof (add_birthday_failed text r) as Hfailed.
    unfold on_record in *. rewrite Hfind in *.
    destruct (Record.add_birthday text r) as [[[]|e] r']; cbn in *.
    + intros H. contradiction.
    + intros _. apply Hsame, Hfailed. discriminate.
  - unfold add_address. rewrite input_error_book.
    destruct args as [|name [|a rest]]; try reflexivity.
    unfold input_error, bind, lift, gets, raise, ret, on_record, unpack2. cbn beta iota.
    destruct (AddressBook.find name book) as [r|] eqn:Hfind; [|reflexivity].
    rewrite Hfind. cbn. intros H. contradiction.
  - unfold change_address. rewrite input_error_book.
    destruct args as [|name [|old [|new rest]]]; try reflexivity.
    unfold input_error, bind, lift, gets, raise, ret, on_record, unpack3. cbn beta iota.
    destruct (AddressBook.find name book) as [r|] eqn:Hfind; [|reflexivity].
    destruct (Record.addresses r) as [l|]; [|reflexivity].
    destruct (replace_first old new l); [|reflexivity].
    cbn beta iota. rewrite Hfind. cbn. intros H. contradiction.
  - unfold remove_address. rewrite input_error_book.
    destruct args as [|name [|a rest]]; try reflexivity.
    unfold input_error, bind, lift, gets, raise, ret, on_record, unpack2. cbn beta iota.
    destruct (AddressBook.find name book) as [r|] eqn:Hfind; [|reflexivity].
    destruct (Record.addresses r) as [l|]; [|reflexivity].
    cbn beta iota. rewrite Hfind. cbn. intros H. contradiction.
Qed.

Lemma show_phone_book args book : (show_phone args book).2 = book.
Proof.
  unfold show_phone. rewrite input_error_book.
  unfold bind, lift, gets, raise, ret, first_arg.
  destruct args as [|name rest]; [reflexivity|]. cbn beta iota.
  destruct (AddressBook.find name book); reflexivity.
Qed.

Lemma show_birthday_book pads args book : (show_birthday pads args book).2 = book.
Proof.
  unfold show_birthday. rewrite input_error_book.
  unfold bind, lift, gets, raise, ret, first_arg.
  destruct args as [|name rest]; [reflexivity|]. cbn beta iota.
  destruct (AddressBook.find name book) as [r|]; [|reflexivity].
  destruct (Record.birthday r); reflexivity.
Qed.

Lemma show_address_book args book : (show_address args book).2 = book.
Proof.
  unfold show_address. rewrite input_error_book.
  unfold bind, lift, gets, raise, ret, first_arg.
  destruct args as [|name rest]; [reflexivity|]. cbn beta iota.
  destruct (AddressBook.find name book) as [r|]; [|reflexivity].
  destruct (Record.addresses r); [|reflexivity].
  cbv zeta. destruct (len _ =? 0); reflexivity.
Qed.

Lemma dispatch_read_only pads today command args book :
  command ∉ ["add"; "change"; "add-birthday"] ->
  (dispatch pads today command args book).2 = book.
Proof.
  intros Hnot. unfold dispatch.
  destruct (String.eqb_spec command "hello"); [reflexivity|].
  destruct (String.eqb_spec command "add") as [-> | _].
  { exfalso. apply Hnot. left. }
  destruct (String.eqb_spec command "change") as [-> | _].
  { exfalso. apply Hnot. right. left. }
  destruct (String.eqb_spec command "phone"); [apply show_phone_book|].
  destruct (String.eqb_spec command "all"); [reflexivity|].
  destruct (String.eqb_spec command "add-birthday") as [-> | _].
  { exfalso. apply Hnot. right. right. left. }
  destruct (String.eqb_spec command "show-birthday"); [apply show_birthday_book|].
  destruct (String.eqb_spec command "birthdays"); reflexivity.
Qed.

(** Of the command words of the loop, only add, change and add-birthday
    can change the book; of the address commands, [show_address] cannot.
    Every other command word, known or not, leaves the book as it is,
    whatever its arguments are and whatever it answers. *)
Theorem only_three_commands_change_the_book pads today command args book :
  command ∉ ["add"; "change"; "add-birthday"] ->
  (dispatch pads today command args book).2 = book
  /\ (show_address args book).2 = book.
Proof.
  intros Hnot. split; [apply dispatch_read_only, Hnot | apply show_address_book].
Qed.

Lemma only_three_commands_change_the_book_witness :
  (dispatch false sample_today "phone" ["Ann"] sample_book).2 = sample_book
  /\ (show_address ["Ann"] sample_book).2 = sample_book.
Proof.
  apply (only_three_commands_change_the_book false sample_today "phone" ["Ann"]
           sample_book).
  intros Hin.
  repeat (apply elem_of_cons in Hin as [Hin | Hin]; [discriminate Hin|]).
  inversion Hin.
Defined.

End CommandEffects.

(** ** A session of the command loop *)

Section Session.
Context {P : Pickle}.
Variable pads : bool.

Lemma dispatch_raises today command args book x :
  (dispatch pads today command args book).1 = Raise x ->
  command = "birthdays" /\ birthdays pads today book = Raise x.
Proof.
  destruct (main_handlers_answer pads args book)
    as ([m1 H1] & [m2 H2] & [m3 H3] & [m4 H4] & [m5 H5]).
  unfold dispatch.
  destruct (String.eqb_spec command "hello"); [discriminate|].
  destruct (String.eqb_spec command "add"); [rewrite H1; discriminate|].
  destruct (String.eqb_spec command "change"); [rewrite H2; discriminate|].
  destruct (String.eqb_spec command "phone"); [rewrite H3; discriminate|].
  destruct (String.eqb_spec command "all"); [discriminate|].
  destruct (String.eqb_spec command "add-birthday"); [rewrite H4; discriminate|].
  destruct (String.eqb_spec command "show-birthday"); [rewrite H5; discriminate|].
  destruct (String.eqb_spec command "birthdays"); [|discriminate].
  cbn. intros H. split; assumption.
Qed.

Lemma dispatch_wf today command args book :
  wf_book book -> wf_book (dispatch pads today command args book).2.
Proof.
  intros Hwf. unfold dispatch.
  destruct (String.eqb command "hello"); [exact Hwf|].
  destruct (String.eqb command "add"); [apply (add_contact_ensures args book Hwf)|].
  destruct (String.eqb command "change"); [apply (change_contact_ensures args book Hwf)|].
  destruct (String.eqb command "phone"); [rewrite show_phone_book; exact Hwf|].
  destruct (String.eqb command "all"); [exact Hwf|].
  destruct (String.eqb command "add-birthday");
    [apply (add_birthday_ensures args book Hwf)|].
  destruct (String.eqb command "show-birthday"); [rewrite show_birthday_book; exact Hwf|].
  destruct (String.eqb command "birthdays"); exact Hwf.
Qed.

Lemma main_loop_spec inputs :
  forall book fs events e fs',
    main_loop pads inputs book fs = (events, e, fs') ->
    (e <> Finished -> fs' = fs)
    /\ (e = Finished ->
        exists saved,
          fs' = save_data saved "addressbook.pkl" fs
          /\ (wf_book book -> wf_book saved))
    /\ (forall x, e = Uncaught x ->
          exists today line args book',
            (today, line) ∈ inputs
            /\ parse_input line = ("birthdays", args)
            /\ birthdays pads today book' = Raise x).
Proof.
  induction inputs as [|[today line] rest IH]; intros book fs events e fs';
    cbn [main_loop].
  - intros [= <- <- <-]. split; [reflexivity|]. split; intros; discriminate.
  - destruct (parse_input line) as [command args] eqn:Hparse.
    destruct (String.eqb command "close" || String.eqb command "exit").
    + intros [= <- <- <-]. split; [intros H; contradiction|]. split.
      * intros _. exists book. split; [reflexivity | trivial].
      * intros x H. discriminate H.
    + destruct (dispatch pads today command args book) as [[text|x] book'] eqn:Hd.
      * destruct (main_loop pads rest book' fs) as [[ev e0] fs0] eqn:Hrest.
        intros [= <- <- <-].
        destruct (IH _ _ _ _ _ Hrest) as (Hkeep & Hsaved & Hcrash).
        split; [exact Hkeep|]. split.
        -- intros He. destruct (Hsaved He) as (saved & Hfs & Hwf).
           exists saved. split; [exact Hfs|]. intros Hbook. apply Hwf.
           pose proof (dispatch_wf today command args book Hbook) as H.
           rewrite Hd in H. exact H.
        -- intros x He. destruct (Hcrash x He) as (t & l & a & b & Hin & Hp & Hb).
           exists t, l, a, b. split; [right; exact Hin | split; assumption].
      * intros [= <- <- <-]. split; [reflexivity|]. split; [discriminate|].
        intros y [= <-].
        destruct (dispatch_raises today command args book x) as [-> Hb];
          [rewrite Hd; reflexivity|].
        exists today, line, args, book. split; [left | split; assumption].
Qed.

(** What a session does to the files. It writes no file but
    addressbook.pkl, and writes that one only when it ends by close or
    exit: a session that ends in an exception, or at the end of its input,
    leaves every file as it was, so what it changed in the book is lost.
    What close or exit writes is the dump of one book; with a serializer
    that keeps its promise, [load_data] then returns that book; and that
    book is well formed when the session started without a file. *)
Theorem session_saves_on_exit_only inputs fs events e fs' :
  main pads inputs fs = (events, e, fs') ->
  (forall other, other <> "addressbook.pkl" -> fs' !! other = fs !! other)
  /\ (e <> Finished -> fs' = fs)
  /\ (e = Finished ->
      exists saved,
        fs' = save_data saved "addressbook.pkl" fs
        /\ (PickleFaithful P -> load_data "addressbook.pkl" fs' = Ok saved)
        /\ (fs !! "addressbook.pkl" = None -> wf_book saved)).
Proof.
  unfold main. intros Hmain.
  assert ((e <> Finished -> fs' = fs)
          /\ (e = Finished ->
              exists saved,
                fs' = save_data saved "addressbook.pkl" fs
                /\ (fs !! "addressbook.pkl" = None -> wf_book saved))) as [Hkeep Hsaved].
  { destruct (load_data "addressbook.pkl" fs) as [book|x] eqn:Hload.
    - destruct (main_loop pads inputs book fs) as [[ev e0] fs0] eqn:Hloop.
      injection Hmain as <- <- <-.
      destruct (main_loop_spec _ _ _ _ _ _ Hloop) as (Hkeep & Hsaved & _).
      split; [exact Hkeep|]. intros He. destruct (Hsaved He) as (saved & Hfs & Hwf).
      exists saved. split; [exact Hfs|]. intros Hmissing. apply Hwf.
      unfold load_data, open_rb in Hload. rewrite Hmissing in Hload.
      injection Hload as <-. apply wf_book_empty.
    - injection Hmain as <- <- <-. split; [reflexivity | discriminate]. }
  split; [|split; [exact Hkeep|]].
  - intros other Hother. destruct e;
      try (rewrite Hkeep by discriminate; reflexivity).
    destruct (Hsaved eq_refl) as (saved & -> & _).
    unfold save_data. apply lookup_insert_ne. congruence.
  - intros He. destruct (Hsaved He) as (saved & Hfs & Hwf).
    exists saved. split; [exact Hfs|]. split; [|exact Hwf].
    intros F. rewrite Hfs. unfold load_data, save_data, open_rb.
    rewrite lookup_insert_eq. cbn [rbind]. rewrite pickle_load_dump. reflexivity.
Qed.



(** A line of blank characters only, the empty line among them, is
    answered with "Invalid command." and the loop goes on with the same
    book. *)
Theorem blank_line_is_invalid_command today line rest book fs :
  is_blank line = true ->
  main_loop pads ((today, line) :: rest) book fs
    = (let '(events, e, fs') := main_loop pads rest book fs in
       (Prompt "Enter a command: " :: Print "Invalid command." :: events, e, fs')).
Proof.
  intros Hblank. cbn [main_loop].
  assert (parse_input line = ("", [])) as ->; [|reflexivity].
  unfold parse_input. rewrite split_strip. unfold split.
  apply forallb_Forall in Hblank.
  rewrite (proj2 (split_words_nil (chars line) []) (conj eq_refl Hblank)). reflexivity.
Qed.

End Session.

(** Sessions with the serializer that keeps the book as it is: one
    starts on an empty disk, adds a contact and ends by exit; the other
    loads a book that holds a February 29, is refused a second birthday
    for that contact, asks for the birthdays and ends there, before its
    exit is read. *)

Lemma session_saves_on_exit_only_witness :
  exists saved,
    (@main memory_pickle false
       [(sample_today, "add Ann 0123456789"); (sample_today, "exit")] ∅).2
      = @save_data memory_pickle saved "addressbook.pkl" ∅
    /\ @load_data memory_pickle "addressbook.pkl"
         (@main memory_pickle false
            [(sample_today, "add Ann 0123456789"); (sample_today, "exit")] ∅).2
       = Ok saved
    /\ wf_book saved.
Proof.
  destruct (@session_saves_on_exit_only memory_pickle false
              [(sample_today, "add Ann 0123456789"); (sample_today, "exit")] ∅
              [Print "Welcome to the assistant bot!"; Prompt "Enter a command: ";
               Print "Contact added."; Prompt "Enter a command: ";
               Print "Data saved. Good bye!"]
              Finished
              (@main memory_pickle false
                 [(sample_today, "add Ann 0123456789"); (sample_today, "exit")] ∅).2)
    as (_ & _ & Hsaved).
  - vm_compute. reflexivity.
  - destruct (Hsaved eq_refl) as (saved & Hfs & Hload & Hwf).
    exists saved. split; [exact Hfs|]. split; [|apply Hwf; reflexivity].
    apply Hload, memory_pickle_faithful.
Defined.


Lemma blank_line_is_invalid_command_witness :
  @main_loop memory_pickle false [(sample_today, "   "); (sample_today, "exit")]
    sample_book ∅
  = ([Prompt "Enter a command: "; Print "Invalid command.";
      Prompt "Enter a command: "; Print "Data saved. Good bye!"],
     Finished,
     @save_data memory_pickle sample_book "addressbook.pkl" ∅).
Proof.
  rewrite (@blank_line_is_invalid_command memory_pickle false sample_today "   "
             [(sample_today, "exit")] sample_book ∅ eq_refl).
  reflexivity.
Defined.
